(** * Training loop and checkpoint lifecycle of the intro-to-pytorch notebooks

    A shallow embedding of the code cells of
    "Part 3 - Training Neural Networks (Exercises)" and of the
    "Saving and Loading Models" notebook, with the properties the
    specification states about them.

    Python dictionaries are finite maps keyed by strings, tensors are a
    shape together with their elements in row-major order, exceptions are an
    explicit error type threaded through a small error monad. *)

From Stdlib Require Import ZArith QArith Qreals Reals Lra Lia List.
From stdpp Require Import base option list strings pretty gmap.

(** ** Exceptions *)

(** One entry of the message of the [RuntimeError] that [load_state_dict]
    raises, as printed in the notebook:
    "size mismatch for hidden_layers.0.weight: copying a param with shape
    torch.Size([512, 784]) from checkpoint, the shape in current model is
    torch.Size([400, 784])". *)
Inductive LoadIssue : Type :=
  | SizeMismatch (name : string) (checkpoint_shape model_shape : list nat)
  | MissingKey (name : string)
  | UnexpectedKey (name : string).

Inductive Exn : Type :=
  | KeyError (key : string)
  | TypeError (key : string)
  | FileNotFoundError (path : string)
  | StateDictError (issues : list LoadIssue)
  | ViewError (numel : nat) (requested : list (option nat))
  | ShapeError (expected got : nat)
  | IndexError (index bound : nat)
  | ZeroDivisionError.

Inductive result (T : Type) : Type :=
  | Ok (v : T)
  | Raise (e : Exn).
Arguments Ok {T} v.
Arguments Raise {T} e.

Definition rbind {T U : Type} (r : result T) (k : T -> result U) : result U :=
  match r with
  | Ok v => k v
  | Raise e => Raise e
  end.

Notation "x <- r ;; k" := (rbind r (fun x => k))
  (at level 100, r at next level, right associativity).

(** ** Tensors *)

Record Tensor (A : Type) : Type := mkTensor {
  shape : list nat;
  data : list A
}.
Arguments mkTensor {A} shape data.
Arguments shape {A} t.
Arguments data {A} t.

Definition numel (sh : list nat) : nat := fold_right Nat.mul 1 sh.

(** The number of samples of a batch, [images.shape[0]]. *)
Definition batch_size {A : Type} (t : Tensor A) : nat := hd 0 (shape t).

(** ** The fully connected network and its parameters *)

Record Linear (A : Type) : Type := mkLinear {
  in_features : nat;
  out_features : nat;
  weight : Tensor A;
  bias : Tensor A
}.
Arguments mkLinear {A} in_features out_features weight bias.
Arguments in_features {A} l.
Arguments out_features {A} l.
Arguments weight {A} l.
Arguments bias {A} l.

(** The object printed by the notebook:
    Network((hidden_layers): ModuleList(...) (output): Linear(...)
            (dropout): Dropout(p=0.5)). *)
Record Model (A : Type) : Type := mkModel {
  hidden_layers : list (Linear A);
  output : Linear A;
  dropout_p : Q;
  training : bool
}.
Arguments mkModel {A} hidden_layers output dropout_p training.
Arguments hidden_layers {A} m.
Arguments output {A} m.
Arguments dropout_p {A} m.
Arguments training {A} m.

(** Names of the parameters, as in the printed [state_dict().keys()]:
    hidden_layers.0.weight, hidden_layers.0.bias, ..., output.weight,
    output.bias. *)
Definition hidden_prefix (k : nat) : string := "hidden_layers." +:+ pretty k.
Definition weight_name (prefix : string) : string := prefix +:+ ".weight".
Definition bias_name (prefix : string) : string := prefix +:+ ".bias".

Section Checkpoint.
Context {A : Type}.

(** The initial value of every element of every parameter: the element at
    flat index [i] of the parameter called [name] starts as [init name i].
    This stands for the framework's random initialisation. *)
Definition init_tensor (init : string -> nat -> A) (name : string)
    (sh : list nat) : Tensor A :=
  {| shape := sh; data := map (init name) (seq 0 (numel sh)) |}.

Definition new_linear (init : string -> nat -> A) (prefix : string)
    (i o : nat) : Linear A :=
  {| in_features := i; out_features := o;
     weight := init_tensor init (weight_name prefix) [o; i];
     bias := init_tensor init (bias_name prefix) [o] |}.

Fixpoint new_layers (init : string -> nat -> A) (k : nat)
    (dims : list (nat * nat)) : list (Linear A) :=
  match dims with
  | [] => []
  | (i, o) :: rest =>
      new_linear init (hidden_prefix k) i o :: new_layers init (S k) rest
  end.

(** The widths of consecutive layers: (input_size, h1), (h1, h2), ... *)
Fixpoint layer_sizes (i : nat) (hidden : list nat) : list (nat * nat) :=
  match hidden with
  | [] => []
  | h :: rest => (i, h) :: layer_sizes h rest
  end.

(** Modelled from the spec: [fc_model.Network], whose module is imported by
    the notebook but is not among the sources. The spec composes the model
    as affine(in->h1), affine(h1->h2), ..., affine(hn->out); the notebook
    prints the hidden layers as a module list, the last affine map as
    [output], a dropout layer of probability 0.5, and a freshly built
    framework module is in training mode. *)
Definition Network (init : string -> nat -> A) (input_size output_size : nat)
    (hidden : list nat) : Model A :=
  {| hidden_layers := new_layers init 0 (layer_sizes input_size hidden);
     output := new_linear init "output" (List.last hidden input_size) output_size;
     dropout_p := 1 # 2;
     training := true |}.

(** The (input width, output width) pair of every affine layer, in order. *)
Definition linear_dims (l : Linear A) : nat * nat :=
  (in_features l, out_features l).
Definition affine_layers (m : Model A) : list (Linear A) :=
  hidden_layers m ++ [output m].
Definition layer_dims (m : Model A) : list (nat * nat) :=
  map linear_dims (affine_layers m).

(** [model.eval()] and [model.train()]. *)
Definition eval_mode (m : Model A) : Model A :=
  {| hidden_layers := hidden_layers m; output := output m;
     dropout_p := dropout_p m; training := false |}.
Definition train_mode (m : Model A) : Model A :=
  {| hidden_layers := hidden_layers m; output := output m;
     dropout_p := dropout_p m; training := true |}.

(** *** state_dict *)

Definition linear_parameters (prefix : string) (l : Linear A)
    : list (string * Tensor A) :=
  [(weight_name prefix, weight l); (bias_name prefix, bias l)].

Fixpoint hidden_parameters (k : nat) (ls : list (Linear A))
    : list (string * Tensor A) :=
  match ls with
  | [] => []
  | l :: rest =>
      linear_parameters (hidden_prefix k) l ++ hidden_parameters (S k) rest
  end.

Definition named_parameters (m : Model A) : list (string * Tensor A) :=
  hidden_parameters 0 (hidden_layers m) ++ linear_parameters "output" (output m).

Definition state_dict (m : Model A) : gmap string (Tensor A) :=
  list_to_map (named_parameters m).

(** *** load_state_dict *)

(** Modelled from the spec: one parameter under [load_state_dict], which
    "assigns parameter values by name" and "fails when the set of parameter
    names or any individual tensor's shape does not match". A parameter
    whose name is present with the same shape receives the elements of the
    record; any other parameter is left as it is and an issue is
    recorded. *)
Definition load_param (sd : gmap string (Tensor A)) (name : string)
    (t : Tensor A) : Tensor A * list LoadIssue :=
  match sd !! name with
  | Some t' =>
      if bool_decide (shape t' = shape t)
      then (mkTensor (shape t) (data t'), [])
      else (t, [SizeMismatch name (shape t') (shape t)])
  | None => (t, [MissingKey name])
  end.

Definition load_linear (sd : gmap string (Tensor A)) (prefix : string)
    (l : Linear A) : Linear A * list LoadIssue :=
  let '(w, ew) := load_param sd (weight_name prefix) (weight l) in
  let '(b, eb) := load_param sd (bias_name prefix) (bias l) in
  (mkLinear (in_features l) (out_features l) w b, ew ++ eb).

Fixpoint load_hidden (sd : gmap string (Tensor A)) (k : nat)
    (ls : list (Linear A)) : list (Linear A) * list LoadIssue :=
  match ls with
  | [] => ([], [])
  | l :: rest =>
      let '(l', e) := load_linear sd (hidden_prefix k) l in
      let '(rest', es) := load_hidden sd (S k) rest in
      (l' :: rest', e ++ es)
  end.

(** The keys of [model.state_dict()], in order. *)
Definition parameter_names (m : Model A) : list string :=
  (named_parameters m).*1.

(** The names of the record that the model does not have. *)
Definition unexpected_keys (m : Model A) (sd : gmap string (Tensor A))
    : list LoadIssue :=
  map UnexpectedKey
    (filter (fun k => k ∉ parameter_names m) (map_to_list sd).*1).

(** Modelled from the spec: the framework's [model.load_state_dict(sd)],
    which is outside the sources: every parameter of the model is loaded by
    name, the names of the record unknown to the model are issues too, and
    any issue makes the call raise, with the issues as its message (the
    notebook shows one such message). The result is the model after the
    call, updated in place also when the call raises, and the outcome of
    the call. *)
Definition load_state_dict (m : Model A) (sd : gmap string (Tensor A))
    : Model A * result unit :=
  let '(hs, eh) := load_hidden sd 0 (hidden_layers m) in
  let '(o, eo) := load_linear sd "output" (output m) in
  let m' := mkModel hs o (dropout_p m) (training m) in
  match unexpected_keys m sd ++ eh ++ eo with
  | [] => (m', Ok tt)
  | issues => (m', Raise (StateDictError issues))
  end.

(** *** The checkpoint dictionary, torch.save and torch.load *)

Inductive PyVal : Type :=
  | VInt (n : nat)
  | VList (l : list nat)
  | VState (sd : gmap string (Tensor A)).

(** The dictionary literal of the notebook:
    {'input_size': 784, 'output_size': 10,
     'hidden_layers': [each.out_features for each in model.hidden_layers],
     'state_dict': model.state_dict()}. *)
Definition checkpoint (model : Model A) : gmap string PyVal :=
  list_to_map
    [("input_size", VInt 784);
     ("output_size", VInt 10);
     ("hidden_layers", VList (map out_features (hidden_layers model)));
     ("state_dict", VState (state_dict model))].

(** The files written by [torch.save], by path. *)
Definition torch_save (obj : gmap string PyVal) (path : string)
    (fs : gmap string (gmap string PyVal)) : gmap string (gmap string PyVal) :=
  <[path := obj]> fs.

Definition torch_load (path : string) (fs : gmap string (gmap string PyVal))
    : result (gmap string PyVal) :=
  match fs !! path with
  | Some obj => Ok obj
  | None => Raise (FileNotFoundError path)
  end.

(** [d[key]] *)
Definition getitem (d : gmap string PyVal) (key : string) : result PyVal :=
  match d !! key with
  | Some v => Ok v
  | None => Raise (KeyError key)
  end.

Definition as_int (key : string) (v : PyVal) : result nat :=
  match v with VInt n => Ok n | _ => Raise (TypeError key) end.
Definition as_list (key : string) (v : PyVal) : result (list nat) :=
  match v with VList l => Ok l | _ => Raise (TypeError key) end.
Definition as_state (key : string) (v : PyVal)
    : result (gmap string (Tensor A)) :=
  match v with VState sd => Ok sd | _ => Raise (TypeError key) end.

(** def load_checkpoint(filepath):
        checkpoint = torch.load(filepath)
        model = fc_model.Network(checkpoint['input_size'],
                                 checkpoint['output_size'],
                                 checkpoint['hidden_layers'])
        model.load_state_dict(checkpoint['state_dict'])
        return model
    The three subscripts are evaluated before the constructor is called, the
    fourth one after it. *)
Definition load_checkpoint (init : string -> nat -> A)
    (fs : gmap string (gmap string PyVal)) (filepath : string)
    : result (Model A) :=
  ckpt <- torch_load filepath fs ;;
  vi <- getitem ckpt "input_size" ;;
  vo <- getitem ckpt "output_size" ;;
  vh <- getitem ckpt "hidden_layers" ;;
  input_size <- as_int "input_size" vi ;;
  output_size <- as_int "output_size" vo ;;
  hidden <- as_list "hidden_layers" vh ;;
  let model := Network init input_size output_size hidden in
  vs <- getitem ckpt "state_dict" ;;
  sd <- as_state "state_dict" vs ;;
  let '(model', outcome) := load_state_dict model sd in
  _ <- outcome ;;
  Ok model'.

(** The parameters of an affine layer have the shapes of its widths. *)
Definition linear_ok (l : Linear A) : bool :=
  bool_decide (shape (weight l) = [out_features l; in_features l])
  && bool_decide (shape (bias l) = [out_features l]).

(** A model has the architecture (input_size, output_size, hidden) when its
    layers have the widths and its parameters the shapes that constructing
    it from that description gives; training changes values, not shapes. *)
Definition has_arch (input_size output_size : nat) (hidden : list nat)
    (m : Model A) : bool :=
  bool_decide (map linear_dims (hidden_layers m) = layer_sizes input_size hidden)
  && bool_decide (linear_dims (output m)
                  = (List.last hidden input_size, output_size))
  && forallb linear_ok (affine_layers m).

(** Two layers of the same widths and parameter shapes. *)
Definition same_shape (l l' : Linear A) : Prop :=
  linear_dims l' = linear_dims l
  /\ shape (weight l') = shape (weight l) /\ shape (bias l') = shape (bias l).

End Checkpoint.

Arguments PyVal A : clear implicits.

(** The keys [load_checkpoint] subscripts the record with. *)
Definition required_fields : list string :=
  ["input_size"; "output_size"; "hidden_layers"; "state_dict"]%string.

(** Concrete values used in the examples: integer elements, all parameters
    initialised to zero. *)
Definition zero_init : string -> nat -> Z := fun _ _ => 0%Z.

(** A model of architecture (784, 10, [3; 2]) whose parameter values differ
    from the initial ones, as after training. *)
Definition trained_model : Model Z :=
  Network (fun _ i => Z.of_nat (S i)) 784 10 [3; 2].

(** A model whose input width is not the 784 of the dictionary literal. *)
Definition small_model : Model Z :=
  Network (fun _ i => Z.of_nat (S i)) 3 10 [4].

(** ** Reshaping a batch *)

Section Reshape.
Context {A : Type}.

(** A tensor holds as many elements as its shape says. *)
Definition well_formed (t : Tensor A) : Prop :=
  length (data t) = numel (shape t).

(** The product of the given sizes of a requested shape and the number of
    sizes left to infer (written -1 in the call). *)
Definition known_size (dims : list (option nat)) : nat :=
  fold_right (fun d acc => match d with Some n => n * acc | None => acc end)
    1 dims.
Definition inferred_count (dims : list (option nat)) : nat :=
  length (filter (fun d => d = None) dims).

(** [t.view(d1, ..., dk)], where one size may be -1. The library function,
    after its documentation: the elements are shared unchanged, the new
    shape must hold exactly the elements of [t], a size given as -1 is
    inferred from the others, and a request that does not fit raises. *)
Definition view (t : Tensor A) (dims : list (option nat))
    : result (Tensor A) :=
  let n := numel (shape t) in
  let k := known_size dims in
  match inferred_count dims with
  | 0 =>
      if bool_decide (k = n)
      then Ok {| shape := map (fun d => default 0 d) dims; data := data t |}
      else Raise (ViewError n dims)
  | 1 =>
      if bool_decide (k <> 0 /\ n `mod` k = 0)
      then Ok {| shape := map (fun d => default (n `div` k) d) dims;
                 data := data t |}
      else Raise (ViewError n dims)
  | _ => Raise (ViewError n dims)
  end.

(** The flatten of the epoch loop: [images.view(images.shape[0], -1)]. *)
Definition flatten (images : Tensor A) : result (Tensor A) :=
  view images [Some (batch_size images); None].

(** [t.resize_(d1, ..., dk)], in place. The library function, after its
    documentation: it never raises; when the new shape holds fewer elements
    the tensor keeps the first ones, when it holds more the storage grows
    and the new elements are uninitialised memory, here [junk 0],
    [junk 1], ... *)
Definition resize_ (junk : nat -> A) (t : Tensor A) (new_shape : list nat)
    : Tensor A :=
  let n := numel new_shape in
  {| shape := new_shape;
     data := take n (data t ++ map junk (seq 0 (n - length (data t)))) |}.

(** The reshape of the single-step demonstration:
    [images.resize_(64, 784)]. *)
Definition demo_reshape (junk : nat -> A) (images : Tensor A) : Tensor A :=
  resize_ junk images [64; 784].

End Reshape.

(** Fresh memory that happens to hold zeros. *)
Definition zero_init_junk : nat -> Z := fun _ => 0%Z.

(** A short batch: 2 images of 1 x 28 x 28 values. *)
Definition short_batch : Tensor Z :=
  {| shape := [2; 1; 28; 28]; data := map Z.of_nat (seq 0 (2 * 784)) |}.

(** ** The forward pass and the loss, in exact real arithmetic *)

(** The numbers of the framework are floating-point; the forward pass is
    embedded over the real numbers, without rounding. A batch is the list
    of its samples, each a row of values. *)

Definition rsum (l : list R) : R := fold_right Rplus 0%R l.

Definition dot (u v : list R) : R := rsum (zip_with Rmult u v).

Fixpoint result_map {T U : Type} (f : T -> result U) (l : list T)
    : result (list U) :=
  match l with
  | [] => Ok []
  | x :: rest => y <- f x ;; ys <- result_map f rest ;; Ok (y :: ys)
  end.

(** The rows of a 2-dimensional tensor. *)
Fixpoint chunks {T : Type} (n w : nat) (l : list T) : list (list T) :=
  match n with
  | 0 => []
  | S n' => take w l :: chunks n' w (drop w l)
  end.

Definition tensor_rows (t : Tensor R) : result (list (list R)) :=
  match shape t with
  | [b; w] => Ok (chunks b w (data t))
  | sh => Raise (ShapeError 2 (length sh))
  end.

(** [nn.Linear]: y = x W^T + b, with W of shape (out, in) stored by rows. *)
Definition weight_row (l : Linear R) (j : nat) : list R :=
  take (in_features l) (drop (j * in_features l) (data (weight l))).

Definition linear_apply (l : Linear R) (x : list R) : result (list R) :=
  if bool_decide (length x = in_features l)
  then Ok (map (fun j => (dot (weight_row l j) x + nth j (data (bias l)) 0)%R)
             (seq 0 (out_features l)))
  else Raise (ShapeError (in_features l) (length x)).

(** [nn.ReLU] *)
Definition relu (x : list R) : list R := map (Rmax 0) x.

(** [nn.LogSoftmax]: x_i - log (sum_j exp x_j) along the chosen dimension. *)
Definition log_softmax (x : list R) : list R :=
  map (fun v => (v - ln (rsum (map exp x)))%R) x.

Definition softmax (x : list R) : list R :=
  map (fun v => (exp v / rsum (map exp x))%R) x.

Definition transpose (batch : list (list R)) : list (list R) :=
  map (fun j => map (fun row => nth j row 0%R) batch)
    (seq 0 (length (hd [] batch))).

Inductive nnModule : Type :=
  | nnLinear (l : Linear R)
  | nnReLU
  | nnLogSoftmax (dim : nat).

Definition apply_module (m : nnModule) (batch : list (list R))
    : result (list (list R)) :=
  match m with
  | nnLinear l => result_map (linear_apply l) batch
  | nnReLU => Ok (map relu batch)
  | nnLogSoftmax 0 => Ok (transpose (map log_softmax (transpose batch)))
  | nnLogSoftmax 1 => Ok (map log_softmax batch)
  | nnLogSoftmax dim => Raise (IndexError dim 2)
  end.

(** [nn.Sequential(...)] applied to a batch. *)
Fixpoint sequential (model : list nnModule) (batch : list (list R))
    : result (list (list R)) :=
  match model with
  | [] => Ok batch
  | m :: rest => y <- apply_module m batch ;; sequential rest y
  end.

(** model = nn.Sequential(nn.Linear(784, 128), nn.ReLU(),
                          nn.Linear(128, 64), nn.ReLU(),
                          nn.Linear(64, 10), nn.LogSoftmax(dim=1))
    for any values of the parameters of the three affine maps. *)
Definition sequential_dims : list (nat * nat) := [(784, 128); (128, 64); (64, 10)].

Definition notebook_model (l1 l2 l3 : Linear R) : list nnModule :=
  [nnLinear l1; nnReLU; nnLinear l2; nnReLU; nnLinear l3; nnLogSoftmax 1].

(** The same model without its last module: the logits. *)
Definition notebook_logits (l1 l2 l3 : Linear R) : list nnModule :=
  [nnLinear l1; nnReLU; nnLinear l2; nnReLU; nnLinear l3].

(** [nn.NLLLoss()], mean reduction: the mean over the batch of minus the
    entry of the row of each sample at its label. The definition is meant
    for batches of at least one sample: on a batch of no sample the
    framework returns nan, a value the real numbers do not have, and the
    quotient below is the 0 / 0 of the real numbers. *)
Definition nll_pick (sample : list R * nat) : result R :=
  match sample.1 !! sample.2 with
  | Some v => Ok (- v)%R
  | None => Raise (IndexError sample.2 (length sample.1))
  end.

Definition nll_loss (logps : list (list R)) (labels : list nat) : result R :=
  if bool_decide (length logps = length labels)
  then picked <- result_map nll_pick (zip logps labels) ;;
       Ok (rsum picked / INR (length logps))%R
  else Raise (ShapeError (length logps) (length labels)).

(** ** The forward pass of the fully connected network *)

(** [nn.Dropout(p)] on the values of one sample: in training mode a value is
    zeroed where the mask drawn for this pass says so and scaled by
    1 / (1 - p) elsewhere; in evaluation mode the layer is the identity. *)
Definition dropout (training : bool) (p : Q) (mask : list bool) (x : list R)
    : list R :=
  if training
  then zip_with (fun (keep : bool) v =>
                   if keep then (v / (1 - Q2R p))%R else 0%R) mask x
  else x.

Fixpoint hidden_forward (training : bool) (p : Q) (ls : list (Linear R))
    (masks : list (list bool)) (x : list R) : result (list R) :=
  match ls with
  | [] => Ok x
  | l :: rest =>
      y <- linear_apply l x ;;
      hidden_forward training p rest (tl masks)
        (dropout training p (hd [] masks) (relu y))
  end.

(** Modelled from the spec: the forward pass of [fc_model.Network] on one
    sample, "affine(in->h1) -> nonlinearity -> [dropout during training
    only] -> affine(h1->h2) -> nonlinearity -> ... -> affine(hn->out) ->
    log-softmax over the class dimension"; [masks] are the dropout masks
    drawn for the hidden layers in this pass. *)
Definition network_forward (m : Model R) (masks : list (list bool))
    (x : list R) : result (list R) :=
  h <- hidden_forward (training m) (dropout_p m) (hidden_layers m) masks x ;;
  o <- linear_apply (output m) h ;;
  Ok (log_softmax o).

(** ** The training loop *)

(** The calls a training run makes, in the order it makes them. *)
Inductive Op : Type :=
  | OpNextBatch
  | OpFlatten
  | OpZeroGrad
  | OpForward (training : bool)
  | OpLoss
  | OpBackward
  | OpStep
  | OpAccumulate
  | OpEvalMode
  | OpTrainMode
  | OpReport.

(** One report of a run with validation. *)
Record Report : Type := mkReport {
  train_loss : R;
  val_loss : R;
  val_accuracy : R
}.

(** Comparisons of real numbers are decidable. *)
#[global] Instance Rle_decision (x y : R) : Decision (x <= y)%R :=
  Rle_dec x y.
#[global] Instance Rlt_decision (x y : R) : Decision (x < y)%R :=
  Rlt_dec x y.

(** Modelled from the spec: the "arg-max prediction" for one sample, the
    index of the largest entry of its row of outputs, the first one on
    ties; the module that computes it is not among the sources. The scan
    keeps the index and the value of the largest entry seen so far. *)
Fixpoint argmax_from (best_index : nat) (best : R) (i : nat) (row : list R)
    : nat :=
  match row with
  | [] => best_index
  | v :: rest =>
      if Rlt_dec best v
      then argmax_from i v (S i) rest
      else argmax_from best_index best (S i) rest
  end.

(** A row of no entry has no largest entry. *)
Definition argmax (row : list R) : result nat :=
  match row with
  | [] => Raise (IndexError 0 0)
  | v :: rest => Ok (argmax_from 0 v 1 rest)
  end.

(** Modelled from the spec: the number of the samples of a batch "where
    arg-max prediction equals label", for an output of one row per label. *)
Definition correct_count (output : Tensor R) (labels : list nat)
    : result nat :=
  rows <- tensor_rows output ;;
  predicted <- result_map argmax rows ;;
  if bool_decide (length predicted = length labels)
  then Ok (length (filter (fun p => p.1 = p.2) (zip predicted labels)))
  else Raise (ShapeError (length predicted) (length labels)).

(** The words of the specification, to compare [argmax] with: [i] is the
    arg-max prediction of [row] when the entry at [i] is a largest entry of
    the row and every entry before it is smaller. *)
Definition is_argmax (row : list R) (i : nat) : Prop :=
  i < length row
  /\ Forall (fun v => (v <= nth i row 0)%R) row
  /\ Forall (fun v => (v < nth i row 0)%R) (take i row).

#[global] Instance is_argmax_dec (row : list R) (i : nat)
    : Decision (is_argmax row i) :=
  ltac:(unfold is_argmax; exact _).

(** The samples, each a row of outputs with its label, whose label is the
    arg-max prediction. *)
Definition correct_samples (samples : list (list R * nat))
    : list (list R * nat) :=
  filter (fun s => is_argmax s.1 s.2) samples.

Section Training.

(** The framework, a collaborator outside the notebooks: a model with its
    parameters, the gradients accumulated for them, the forward pass (in
    training or in evaluation mode), the loss, the clearing of the
    gradients, the backward pass that adds the gradients of the loss of a
    batch to them, and the update of the optimizer. *)
Variable M : Type.
Variable G : Type.
Variable forward : bool -> M -> Tensor R -> result (Tensor R).
Variable criterion : Tensor R -> list nat -> result R.
Variable zero_grad : G -> G.
Variable backward : bool -> M -> Tensor R -> list nat -> G -> G.
Variable optimizer_step : M -> G -> M.

Record TrainState : Type := mkTrainState {
  ts_model : M;
  ts_grads : G;
  ts_training : bool;
  running_loss : R;
  steps : nat;
  printed : list R;
  reports : list Report;
  trace : list Op
}.

Definition log (op : Op) (st : TrainState) : TrainState :=
  mkTrainState (ts_model st) (ts_grads st) (ts_training st) (running_loss st)
    (steps st) (printed st) (reports st) (trace st ++ [op]).

Definition set_grads (g : G) (st : TrainState) : TrainState :=
  mkTrainState (ts_model st) g (ts_training st) (running_loss st)
    (steps st) (printed st) (reports st) (trace st).

Definition set_model (m : M) (st : TrainState) : TrainState :=
  mkTrainState m (ts_grads st) (ts_training st) (running_loss st)
    (steps st) (printed st) (reports st) (trace st).

Definition set_training (b : bool) (st : TrainState) : TrainState :=
  mkTrainState (ts_model st) (ts_grads st) b (running_loss st)
    (steps st) (printed st) (reports st) (trace st).

Definition set_running_loss (x : R) (st : TrainState) : TrainState :=
  mkTrainState (ts_model st) (ts_grads st) (ts_training st) x
    (steps st) (printed st) (reports st) (trace st).

Definition set_steps (n : nat) (st : TrainState) : TrainState :=
  mkTrainState (ts_model st) (ts_grads st) (ts_training st) (running_loss st)
    n (printed st) (reports st) (trace st).

Definition print_loss (x : R) (st : TrainState) : TrainState :=
  mkTrainState (ts_model st) (ts_grads st) (ts_training st) (running_loss st)
    (steps st) (printed st ++ [x]) (reports st) (trace st).

Definition add_report (r : Report) (st : TrainState) : TrainState :=
  mkTrainState (ts_model st) (ts_grads st) (ts_training st) (running_loss st)
    (steps st) (printed st) (reports st ++ [r]) (trace st).

(** The body of the inner loop of the notebook:
        for images, labels in trainloader:
            images = images.view(images.shape[0], -1)
            optimizer.zero_grad()
            output = model(images)
            loss = criterion(output, labels)
            loss.backward()
            optimizer.step()
            running_loss += loss.item() *)
Definition train_step (st : TrainState) (batch : Tensor R * list nat)
    : result TrainState :=
  let st := log OpNextBatch st in
  images <- flatten batch.1 ;;
  let st := log OpFlatten st in
  let st := log OpZeroGrad (set_grads (zero_grad (ts_grads st)) st) in
  output <- forward (ts_training st) (ts_model st) images ;;
  let st := log (OpForward (ts_training st)) st in
  loss <- criterion output batch.2 ;;
  let st := log OpLoss st in
  let st :=
    log OpBackward
      (set_grads (backward (ts_training st) (ts_model st) images batch.2
                    (ts_grads st)) st) in
  let st :=
    log OpStep (set_model (optimizer_step (ts_model st) (ts_grads st)) st) in
  Ok (log OpAccumulate (set_running_loss (running_loss st + loss)%R st)).

Fixpoint train_batches (st : TrainState) (batches : list (Tensor R * list nat))
    : result TrainState :=
  match batches with
  | [] => Ok st
  | batch :: rest => st' <- train_step st batch ;; train_batches st' rest
  end.

(** The outer loop of the notebook, from epoch [e] on:
        for e in range(epochs):
            running_loss = 0
            for images, labels in trainloader: ...
            else:
                print(f"Training loss: {running_loss/len(trainloader)}")
    The loader hands out the batches of epoch [e] in the order
    [trainloader e]; for a loader of no batch the quotient raises. *)
Fixpoint train_epochs (epochs e : nat)
    (trainloader : nat -> list (Tensor R * list nat)) (st : TrainState)
    : result TrainState :=
  match epochs with
  | 0 => Ok st
  | S epochs' =>
      st' <- train_batches (set_running_loss 0%R st) (trainloader e) ;;
      if bool_decide (length (trainloader e) = 0)
      then Raise ZeroDivisionError
      else
        train_epochs epochs' (S e) trainloader
          (print_loss (running_loss st' / INR (length (trainloader e)))%R st')
  end.

(** The operations of one training step, in order. *)
Definition step_ops (training : bool) : list Op :=
  [OpNextBatch; OpFlatten; OpZeroGrad; OpForward training; OpLoss;
   OpBackward; OpStep; OpAccumulate].

(** The state a training step ends in, from the values it computed. *)
Definition after_step (st : TrainState) (flat : Tensor R) (labels : list nat)
    (loss : R) : TrainState :=
  let g := backward (ts_training st) (ts_model st) flat labels
             (zero_grad (ts_grads st)) in
  mkTrainState (optimizer_step (ts_model st) g) g (ts_training st)
    (running_loss st + loss)%R (steps st) (printed st) (reports st)
    (trace st ++ step_ops (ts_training st)).

(** *** Training with validation *)

(** Modelled from the spec: one batch of the validation set, scored by the
    validation of [fc_model.train] (a module that is not among the
    sources): flatten, forward pass in the mode the run is in, loss, and the
    number of samples whose arg-max prediction equals the label. Nothing of
    the state changes but the trace. *)
Definition validation_batch (st : TrainState) (batch : Tensor R * list nat)
    : result (TrainState * (R * nat)) :=
  images <- flatten batch.1 ;;
  let st := log OpFlatten st in
  output <- forward (ts_training st) (ts_model st) images ;;
  let st := log (OpForward (ts_training st)) st in
  loss <- criterion output batch.2 ;;
  let st := log OpLoss st in
  correct <- correct_count output batch.2 ;;
  Ok (st, (loss, correct)).

(** Modelled from the spec: "run the full validation set", batch after
    batch. *)
Fixpoint validation (st : TrainState) (batches : list (Tensor R * list nat))
    : result (TrainState * list (R * nat)) :=
  match batches with
  | [] => Ok (st, [])
  | batch :: rest =>
      r <- validation_batch st batch ;;
      rs <- validation r.1 rest ;;
      Ok (rs.1, r.2 :: rs.2)
  end.

Definition mean (l : list R) : R := (rsum l / INR (length l))%R.

(** A batch of the validation set scored on model [m] in mode [mode]: its
    loss and the rows of its output, one row of at least one entry per
    label. *)
Definition scored (mode : bool) (m : M) (batch : Tensor R * list nat)
    (r : R * list (list R)) : Prop :=
  exists flat out,
    flatten batch.1 = Ok flat
    /\ forward mode m flat = Ok out
    /\ criterion out batch.2 = Ok r.1
    /\ tensor_rows out = Ok r.2
    /\ length r.2 = length batch.2
    /\ Forall (fun row => row <> []) r.2.

Definition validation_ops (mode : bool) : list Op :=
  [OpFlatten; OpForward mode; OpLoss].

(** The samples of a validation set, each the row of outputs of a sample
    with its label, from the rows of the outputs of its batches. *)
Definition validation_samples (batches : list (Tensor R * list nat))
    (rs : list (R * list (list R))) : list (list R * nat) :=
  zip (concat rs.*2) (concat batches.*2).

(** Modelled from the spec: the validation of [fc_model.train], whose
    module is not among the sources. "Every validation_interval steps,
    switch the model to evaluation mode (disable dropout), run the full
    validation set without gradient tracking, compute mean loss and
    classification accuracy, then switch back to training mode before
    resuming"; the report holds the "running mean training loss since the
    last report, validation loss, and validation accuracy". The loss is the
    mean of the losses of the batches, the accuracy the number of samples
    of the validation set whose arg-max prediction equals the label over
    the number of its samples; an interval of 0 and a validation set of no
    sample make a quotient raise. *)
Definition validate_if_due (validation_interval : nat)
    (validation_batches : list (Tensor R * list nat)) (st : TrainState)
    : result TrainState :=
  if bool_decide (validation_interval = 0)
  then Raise ZeroDivisionError
  else if bool_decide (steps st `mod` validation_interval = 0)
  then
    let st := log OpEvalMode (set_training false st) in
    r <- validation st validation_batches ;;
    let samples := length (concat validation_batches.*2) in
    if bool_decide (samples = 0)
    then Raise ZeroDivisionError
    else
      let report :=
        mkReport (running_loss r.1 / INR validation_interval)%R
          (mean r.2.*1) (INR (sum_list r.2.*2) / INR samples)%R in
      let st := log OpReport (add_report report (set_running_loss 0%R r.1)) in
      Ok (log OpTrainMode (set_training true st))
  else Ok st.

(** Modelled from the spec: the step of [fc_model.train]: the training step
    above, counted, followed by the validation when it is due. *)
Definition train_validate_step (validation_interval : nat)
    (validation_batches : list (Tensor R * list nat)) (st : TrainState)
    (batch : Tensor R * list nat) : result TrainState :=
  st' <- train_step (set_steps (S (steps st)) st) batch ;;
  validate_if_due validation_interval validation_batches st'.

Fixpoint train_validate_batches (validation_interval : nat)
    (validation_batches : list (Tensor R * list nat)) (st : TrainState)
    (batches : list (Tensor R * list nat)) : result TrainState :=
  match batches with
  | [] => Ok st
  | batch :: rest =>
      st' <- train_validate_step validation_interval validation_batches
               st batch ;;
      train_validate_batches validation_interval validation_batches st' rest
  end.

(** Modelled from the spec: [fc_model.train(model, trainloader, testloader,
    criterion, optimizer, epochs)] with its validation interval, from
    epoch [e] on; every epoch starts in training mode. *)
Fixpoint train (epochs e : nat) (validation_interval : nat)
    (trainloader : nat -> list (Tensor R * list nat))
    (validation_batches : list (Tensor R * list nat)) (st : TrainState)
    : result TrainState :=
  match epochs with
  | 0 => Ok st
  | S epochs' =>
      st' <- train_validate_batches validation_interval validation_batches
               (log OpTrainMode (set_training true st)) (trainloader e) ;;
      train epochs' (S e) validation_interval trainloader validation_batches st'
  end.

End Training.

Arguments mkTrainState {M G}.
Arguments ts_model {M G} t.
Arguments ts_grads {M G} t.
Arguments ts_training {M G} t.
Arguments running_loss {M G} t.
Arguments steps {M G} t.
Arguments printed {M G} t.
Arguments reports {M G} t.
Arguments trace {M G} t.

(** ** Concrete values for the examples over the reals *)

Definition real_init : string -> nat -> R := fun _ _ => 0%R.

(** A stand-in for the framework: the model is a counter of the updates it
    received, the gradients count the backward passes since they were last
    cleared, the forward pass returns its input and every loss is 1. *)
Definition toy_forward : bool -> nat -> Tensor R -> result (Tensor R) :=
  fun _ _ x => Ok x.
Definition toy_criterion : Tensor R -> list nat -> result R :=
  fun _ _ => Ok 1%R.
Definition toy_zero_grad : nat -> nat := fun _ => 0.
Definition toy_backward : bool -> nat -> Tensor R -> list nat -> nat -> nat :=
  fun _ _ _ _ g => S g.
Definition toy_optimizer_step : nat -> nat -> nat := fun m g => m + g.

Definition toy_images : Tensor R :=
  {| shape := [2; 1; 2; 2]; data := replicate 8 0%R |}.
Definition toy_labels : list nat := [0; 1].

Definition toy_state : TrainState nat nat :=
  mkTrainState 0 5 true 0%R 0 [] [] [].

(** ** Further cells of the notebooks *)

Section Indexing.
Context {A : Type}.

(** [t[i]]: the i-th entry along the first dimension; the library raises
    an index error when [i] is not below the size of that dimension, or
    when the tensor has no dimension. *)
Definition select (t : Tensor A) (i : nat) : result (Tensor A) :=
  match shape t with
  | [] => Raise (IndexError i 0)
  | b :: rest =>
      if bool_decide (i < b)
      then Ok {| shape := rest;
                 data := take (numel rest) (drop (i * numel rest) (data t)) |}
      else Raise (IndexError i b)
  end.

(** The input of the prediction cell: [img = images[63].view(1, 784)]. *)
Definition prediction_input (images : Tensor A) : result (Tensor A) :=
  img <- select images 63 ;;
  view img [Some 1; Some 784].

(** The image handed to the plot: [img.view(1, 28, 28)]. *)
Definition plotted_image (img : Tensor A) : result (Tensor A) :=
  view img [Some 1; Some 28; Some 28].

(** Two affine layers of the same widths and parameter shapes, as two
    constructions from one architecture give. *)
Definition same_shapes (l1 l2 : Linear A) : Prop :=
  linear_dims l1 = linear_dims l2
  /\ shape (weight l1) = shape (weight l2)
  /\ shape (bias l1) = shape (bias l2).

(** [DataLoader(dataset, batch_size=...)]: [len(loader)] and the batches of
    one epoch, in the order the loader drew for it. The samples of a batch
    are stacked along a new first dimension and their labels listed. *)
Definition num_batches (n batch_size : nat) : nat :=
  (n + batch_size - 1) `div` batch_size.

Definition collate (samples : list (Tensor A * nat)) : Tensor A * list nat :=
  ({| shape := length samples :: shape (hd (mkTensor [] []) samples.*1);
      data := concat (map data samples.*1) |},
   samples.*2).

Definition DataLoader (order : list (Tensor A * nat)) (batch_size : nat)
    : list (Tensor A * list nat) :=
  map collate (chunks (num_batches (length order) batch_size) batch_size order).

End Indexing.

(** [ps = torch.exp(logps)] *)
Definition probabilities (logps : list R) : list R := map exp logps.

(** [nn.CrossEntropyLoss()] of the first cell, mean reduction, on raw
    scores: for a sample of scores x and label y,
    -x[y] + log (sum_j exp x[j]). *)
Definition cross_entropy_pick (sample : list R * nat) : result R :=
  match sample.1 !! sample.2 with
  | Some v => Ok (- v + ln (rsum (map exp sample.1)))%R
  | None => Raise (IndexError sample.2 (length sample.1))
  end.

Definition cross_entropy_loss (logits : list (list R)) (labels : list nat)
    : result R :=
  if bool_decide (length logits = length labels)
  then picked <- result_map cross_entropy_pick (zip logits labels) ;;
       Ok (rsum picked / INR (length logits))%R
  else Raise (ShapeError (length logits) (length labels)).

(** [transforms.Normalize((0.5,), (0.5,))] on one value of an image that
    [transforms.ToTensor()] scaled to the interval from 0 to 1. *)
Definition normalize (mean std x : R) : R := ((x - mean) / std)%R.
Definition transform (pixel : R) : R := normalize (1 / 2) (1 / 2) pixel.

(** The autograd cells: [y = x**2], [z = y.mean()]. *)
Definition square_all (x : list R) : list R := map (fun v => (v ^ 2)%R) x.
Definition mean_of_squares (x : list R) : R := mean (square_all x).

Section Demo.
Variable M : Type.
Variable G : Type.
Variable forward : bool -> M -> Tensor R -> result (Tensor R).
Variable criterion : Tensor R -> list nat -> result R.
Variable zero_grad : G -> G.
Variable backward : bool -> M -> Tensor R -> list nat -> G -> G.
Variable optimizer_step : M -> G -> M.

(** [loss] is the loss of the batch under some state of the model. *)
Definition batch_loss (batch : Tensor R * list nat) (loss : R) : Prop :=
  exists mode m flat out,
    flatten batch.1 = Ok flat
    /\ forward mode m flat = Ok out
    /\ criterion out batch.2 = Ok loss.

(** The two cells of the single training step:
        images, labels = next(iter(trainloader))
        images.resize_(64, 784)
        optimizer.zero_grad()
        output = model(images)
        loss = criterion(output, labels)
        loss.backward()
    and then
        optimizer.step() *)
Definition demo_step (junk : nat -> R) (st : TrainState M G)
    (batch : Tensor R * list nat) : result (TrainState M G) :=
  let st := log M G OpNextBatch st in
  let images := demo_reshape junk batch.1 in
  let st := log M G OpZeroGrad (set_grads M G (zero_grad (ts_grads st)) st) in
  output <- forward (ts_training st) (ts_model st) images ;;
  let st := log M G (OpForward (ts_training st)) st in
  loss <- criterion output batch.2 ;;
  let st := log M G OpLoss st in
  let st :=
    log M G OpBackward
      (set_grads M G (backward (ts_training st) (ts_model st) images batch.2
                        (ts_grads st)) st) in
  Ok (log M G OpStep
        (set_model M G (optimizer_step (ts_model st) (ts_grads st)) st)).

End Demo.

(** ** Concrete values for the further examples *)

(** A batch of 64 images of 1 x 28 x 28 zeros, over the integers and over
    the reals, and one such image with its label. *)
Definition full_batch : Tensor Z :=
  {| shape := [64; 1; 28; 28]; data := replicate (64 * 784) 0%Z |}.
Definition full_batch_real : Tensor R :=
  {| shape := [64; 1; 28; 28]; data := replicate (64 * 784) 0%R |}.
Definition sample_image : Tensor Z * nat :=
  ({| shape := [1; 28; 28]; data := replicate 784 0%Z |}, 7).

(** * Properties *)

(** ** Parameter names are pairwise distinct *)

Lemma list_ascii_app (s t : string) :
  String.list_ascii_of_string (s +:+ t)
  = String.list_ascii_of_string s ++ String.list_ascii_of_string t.
Proof. induction s as [|c s IH]; simpl; [done | by rewrite IH]. Qed.

Lemma list_ascii_inj (s t : string) :
  String.list_ascii_of_string s = String.list_ascii_of_string t -> s = t.
Proof.
  intros H. rewrite <- (String.string_of_list_ascii_of_string s),
    <- (String.string_of_list_ascii_of_string t). by rewrite H.
Qed.

Lemma string_app_inv_tail (s1 s2 t : string) :
  s1 +:+ t = s2 +:+ t -> s1 = s2.
Proof.
  intros H. apply list_ascii_inj.
  apply (f_equal String.list_ascii_of_string) in H.
  rewrite !list_ascii_app in H. by apply app_inv_tail in H.
Qed.

Lemma weight_bias_distinct (s1 s2 : string) :
  weight_name s1 <> bias_name s2.
Proof.
  unfold weight_name, bias_name. intros H.
  apply (f_equal String.list_ascii_of_string) in H.
  rewrite !list_ascii_app in H.
  apply (f_equal (@rev _)) in H. rewrite !rev_app_distr in H.
  simpl in H. discriminate H.
Qed.

Lemma weight_name_inj (s1 s2 : string) :
  weight_name s1 = weight_name s2 -> s1 = s2.
Proof. apply string_app_inv_tail. Qed.

Lemma bias_name_inj (s1 s2 : string) :
  bias_name s1 = bias_name s2 -> s1 = s2.
Proof. apply string_app_inv_tail. Qed.

Lemma hidden_prefix_inj (j k : nat) :
  hidden_prefix j = hidden_prefix k -> j = k.
Proof.
  unfold hidden_prefix. intros H.
  apply (inj (String.app "hidden_layers.")) in H.
  by apply (inj pretty) in H.
Qed.

Lemma hidden_prefix_not_output (k : nat) : hidden_prefix k <> "output".
Proof. unfold hidden_prefix. simpl. discriminate. Qed.

(** ** Lookups in a state_dict *)

Section CheckpointFacts.
Context {A : Type}.
Implicit Types (m : Model A) (l : Linear A) (ls : list (Linear A)).
Implicit Types (sd : gmap string (Tensor A)) (t : Tensor A).

Lemma hidden_parameters_lookup_weight ls k j l (tl : list (string * Tensor A)) :
  ls !! j = Some l ->
  (list_to_map (hidden_parameters k ls ++ tl) : gmap string (Tensor A))
    !! weight_name (hidden_prefix (k + j)) = Some (weight l).
Proof.
  revert k j. induction ls as [|l0 ls IH]; intros k [|j] Hj; simplify_eq/=.
  - rewrite Nat.add_0_r. apply lookup_insert_eq.
  - rewrite lookup_insert_ne.
    2:{ intros E%weight_name_inj%hidden_prefix_inj. lia. }
    rewrite lookup_insert_ne.
    2:{ intros E. symmetry in E. by apply weight_bias_distinct in E. }
    replace (k + S j) with (S k + j) by lia. by apply IH.
Qed.

Lemma hidden_parameters_lookup_bias ls k j l (tl : list (string * Tensor A)) :
  ls !! j = Some l ->
  (list_to_map (hidden_parameters k ls ++ tl) : gmap string (Tensor A))
    !! bias_name (hidden_prefix (k + j)) = Some (bias l).
Proof.
  revert k j. induction ls as [|l0 ls IH]; intros k [|j] Hj; simplify_eq/=.
  - rewrite Nat.add_0_r. rewrite lookup_insert_ne.
    2:{ apply weight_bias_distinct. }
    apply lookup_insert_eq.
  - rewrite lookup_insert_ne.
    2:{ apply weight_bias_distinct. }
    rewrite lookup_insert_ne.
    2:{ intros E%bias_name_inj%hidden_prefix_inj. lia. }
    replace (k + S j) with (S k + j) by lia. by apply IH.
Qed.

Lemma hidden_parameters_names ls k name :
  name ∈ (hidden_parameters k ls).*1 <->
  exists j, j < length ls /\
    (name = weight_name (hidden_prefix (k + j))
     \/ name = bias_name (hidden_prefix (k + j))).
Proof.
  revert k. induction ls as [|l0 ls IH]; intros k; simpl.
  - split; [by intros ?%elem_of_nil | intros (j & ? & _); lia].
  - rewrite !elem_of_cons, IH. split.
    + intros [->|[->|(j & Hj & Hn)]].
      * exists 0. rewrite Nat.add_0_r. split; [lia | by left].
      * exists 0. rewrite Nat.add_0_r. split; [lia | by right].
      * exists (S j). replace (k + S j) with (S k + j) by lia.
        split; [lia | done].
    + intros ([|j] & Hj & Hn).
      * rewrite Nat.add_0_r in Hn. destruct Hn as [->| ->]; auto.
      * right; right. exists j. replace (S k + j) with (k + S j) by lia.
        split; [lia | done].
Qed.

Lemma parameter_names_spec m name :
  name ∈ parameter_names m <->
  (exists j, j < length (hidden_layers m) /\
     (name = weight_name (hidden_prefix j)
      \/ name = bias_name (hidden_prefix j)))
  \/ name = weight_name "output" \/ name = bias_name "output".
Proof.
  unfold parameter_names, named_parameters.
  rewrite fmap_app, elem_of_app, hidden_parameters_names. simpl.
  rewrite !elem_of_cons, elem_of_nil. tauto.
Qed.

Lemma parameter_names_length m1 m2 :
  length (hidden_layers m1) = length (hidden_layers m2) ->
  forall name, name ∈ parameter_names m1 <-> name ∈ parameter_names m2.
Proof. intros E name. rewrite !parameter_names_spec, E. done. Qed.

Lemma state_dict_keys m name :
  is_Some (state_dict m !! name) -> name ∈ parameter_names m.
Proof.
  intros [t Ht]. apply elem_of_list_to_map_2 in Ht.
  unfold parameter_names. apply list_elem_of_fmap. by exists (name, t).
Qed.

Lemma state_dict_hidden_weight m j l :
  hidden_layers m !! j = Some l ->
  state_dict m !! weight_name (hidden_prefix j) = Some (weight l).
Proof. apply (hidden_parameters_lookup_weight _ 0 j). Qed.

Lemma state_dict_hidden_bias m j l :
  hidden_layers m !! j = Some l ->
  state_dict m !! bias_name (hidden_prefix j) = Some (bias l).
Proof. apply (hidden_parameters_lookup_bias _ 0 j). Qed.

Lemma hidden_parameters_lookup_other ls k name (tl : list (string * Tensor A)) :
  name ∉ (hidden_parameters k ls).*1 ->
  (list_to_map (hidden_parameters k ls ++ tl) : gmap string (Tensor A)) !! name
  = (list_to_map tl : gmap string (Tensor A)) !! name.
Proof.
  intros Hn. rewrite list_to_map_app.
  rewrite lookup_union_r; [done|]. by apply not_elem_of_list_to_map_1.
Qed.

Lemma output_name_not_hidden ls k :
  (weight_name "output" ∉ (hidden_parameters k ls).*1)
  /\ (bias_name "output" ∉ (hidden_parameters k ls).*1).
Proof.
  rewrite !hidden_parameters_names. split; intros (j & _ & [E|E]).
  - apply weight_name_inj in E. symmetry in E.
    by apply hidden_prefix_not_output in E.
  - by apply weight_bias_distinct in E.
  - symmetry in E. by apply weight_bias_distinct in E.
  - apply bias_name_inj in E. symmetry in E.
    by apply hidden_prefix_not_output in E.
Qed.

Lemma state_dict_output_weight m :
  state_dict m !! weight_name "output" = Some (weight (output m)).
Proof.
  unfold state_dict, named_parameters.
  rewrite hidden_parameters_lookup_other by apply output_name_not_hidden.
  done.
Qed.

Lemma state_dict_output_bias m :
  state_dict m !! bias_name "output" = Some (bias (output m)).
Proof.
  unfold state_dict, named_parameters.
  rewrite hidden_parameters_lookup_other by apply output_name_not_hidden.
  done.
Qed.

Lemma state_dict_hidden_inv m j t :
  state_dict m !! weight_name (hidden_prefix j) = Some t
  \/ state_dict m !! bias_name (hidden_prefix j) = Some t ->
  j < length (hidden_layers m).
Proof.
  intros H.
  assert (exists name, (name = weight_name (hidden_prefix j)
                        \/ name = bias_name (hidden_prefix j))
                       /\ name ∈ parameter_names m) as (name & Hname & Hin).
  { destruct H as [H|H]; eexists; (split; [|apply state_dict_keys; by eexists]);
      auto. }
  apply parameter_names_spec in Hin.
  destruct Hin as [(i & Hi & Hn)|Hn].
  - assert (i = j) as ->; [|done].
    destruct Hname as [->| ->], Hn as [E|E];
      first [ by apply weight_name_inj, hidden_prefix_inj in E
            | by apply bias_name_inj, hidden_prefix_inj in E
            | by apply weight_bias_distinct in E
            | (symmetry in E; by apply weight_bias_distinct in E) ].
  - exfalso. destruct Hname as [->| ->], Hn as [E|E];
      first [ by apply weight_name_inj, hidden_prefix_not_output in E
            | by apply bias_name_inj, hidden_prefix_not_output in E
            | by apply weight_bias_distinct in E
            | (symmetry in E; by apply weight_bias_distinct in E) ].
Qed.

(** ** load_state_dict *)

Lemma load_param_copy sd name t t' :
  sd !! name = Some t' -> shape t' = shape t ->
  load_param sd name t = (t', []).
Proof.
  intros Hl Hs. unfold load_param. rewrite Hl, bool_decide_eq_true_2 by done.
  rewrite <- Hs. by destruct t'.
Qed.

Lemma load_param_no_issue sd name t r :
  load_param sd name t = (r, []) ->
  sd !! name = Some r /\ shape r = shape t.
Proof.
  unfold load_param. destruct (sd !! name) as [t'|]; [|done].
  case_bool_decide as Hs; [|done]. intros [= <-]. simpl.
  split; [|done]. rewrite <- Hs. by destruct t'.
Qed.

Lemma load_param_shape sd name t : shape (load_param sd name t).1 = shape t.
Proof.
  unfold load_param. destruct (sd !! name) as [t'|]; [|done].
  by case_bool_decide.
Qed.

Lemma load_linear_copy sd prefix l l' :
  sd !! weight_name prefix = Some (weight l') ->
  sd !! bias_name prefix = Some (bias l') ->
  shape (weight l') = shape (weight l) -> shape (bias l') = shape (bias l) ->
  linear_dims l' = linear_dims l ->
  load_linear sd prefix l = (l', []).
Proof.
  intros Hw Hb Hsw Hsb [= Hi Ho]. unfold load_linear.
  rewrite (load_param_copy _ _ _ _ Hw Hsw), (load_param_copy _ _ _ _ Hb Hsb).
  rewrite <- Hi, <- Ho. by destruct l'.
Qed.

Lemma load_linear_no_issue sd prefix l r :
  load_linear sd prefix l = (r, []) ->
  sd !! weight_name prefix = Some (weight r)
  /\ sd !! bias_name prefix = Some (bias r)
  /\ shape (weight r) = shape (weight l) /\ shape (bias r) = shape (bias l).
Proof.
  unfold load_linear.
  destruct (load_param sd (weight_name prefix) (weight l)) as [w ew] eqn:Hw.
  destruct (load_param sd (bias_name prefix) (bias l)) as [b eb] eqn:Hb.
  intros [= <- [-> ->]%app_eq_nil]. simpl.
  apply load_param_no_issue in Hw, Hb. tauto.
Qed.

Lemma load_linear_dims sd prefix l :
  linear_dims (load_linear sd prefix l).1 = linear_dims l.
Proof.
  unfold load_linear.
  destruct (load_param sd (weight_name prefix) (weight l)).
  by destruct (load_param sd (bias_name prefix) (bias l)).
Qed.

Lemma load_linear_shapes sd prefix l :
  shape (weight (load_linear sd prefix l).1) = shape (weight l)
  /\ shape (bias (load_linear sd prefix l).1) = shape (bias l).
Proof.
  unfold load_linear.
  pose proof (load_param_shape sd (weight_name prefix) (weight l)) as Hw.
  pose proof (load_param_shape sd (bias_name prefix) (bias l)) as Hb.
  destruct (load_param sd (weight_name prefix) (weight l)).
  by destruct (load_param sd (bias_name prefix) (bias l)).
Qed.

Lemma load_hidden_copy sd k ls ls' :
  Forall2 same_shape ls ls' ->
  (forall j l', ls' !! j = Some l' ->
     sd !! weight_name (hidden_prefix (k + j)) = Some (weight l')
     /\ sd !! bias_name (hidden_prefix (k + j)) = Some (bias l')) ->
  load_hidden sd k ls = (ls', []).
Proof.
  intros HF. revert k. induction HF as [|l l' ls ls' (Hd & Hw & Hb) HF IH];
    intros k Hsd; simpl; [done|].
  destruct (Hsd 0 l' eq_refl) as [H0w H0b]. rewrite Nat.add_0_r in H0w, H0b.
  rewrite (load_linear_copy _ _ _ l') by done.
  rewrite IH; [done|]. intros j l2 Hj.
  replace (S k + j) with (k + S j) by lia. by apply Hsd.
Qed.

Lemma load_hidden_no_issue sd k ls rs :
  load_hidden sd k ls = (rs, []) ->
  Forall2 same_shape ls rs
  /\ forall j r, rs !! j = Some r ->
       sd !! weight_name (hidden_prefix (k + j)) = Some (weight r)
       /\ sd !! bias_name (hidden_prefix (k + j)) = Some (bias r).
Proof.
  revert k rs. induction ls as [|l ls IH]; intros k rs; simpl.
  - intros [= <-]. split; [constructor | by intros []].
  - pose proof (load_linear_dims sd (hidden_prefix k) l) as Hd.
    destruct (load_linear sd (hidden_prefix k) l) as [l' e] eqn:Hl.
    destruct (load_hidden sd (S k) ls) as [rest es] eqn:Hr.
    intros [= <- [-> ->]%app_eq_nil].
    apply load_linear_no_issue in Hl as (Hw & Hb & Hsw & Hsb).
    destruct (IH _ _ Hr) as [HF Hsd]. split.
    + constructor; [by split | done].
    + intros [|j] r Hj; simplify_eq/=.
      * by rewrite Nat.add_0_r.
      * replace (k + S j) with (S k + j) by lia. by apply Hsd.
Qed.

Lemma load_hidden_dims sd k ls :
  map linear_dims (load_hidden sd k ls).1 = map linear_dims ls.
Proof.
  revert k. induction ls as [|l ls IH]; intros k; simpl; [done|].
  pose proof (load_linear_dims sd (hidden_prefix k) l) as Hd.
  destruct (load_linear sd (hidden_prefix k) l) as [l' e].
  specialize (IH (S k)). destruct (load_hidden sd (S k) ls) as [rest es].
  simpl in *. by rewrite Hd, IH.
Qed.

Lemma load_hidden_shapes sd k ls :
  Forall2 (fun l r => shape (weight r) = shape (weight l)
                      /\ shape (bias r) = shape (bias l))
    ls (load_hidden sd k ls).1.
Proof.
  revert k. induction ls as [|l ls IH]; intros k; simpl; [constructor|].
  pose proof (load_linear_shapes sd (hidden_prefix k) l) as Hs.
  destruct (load_linear sd (hidden_prefix k) l) as [l' e].
  specialize (IH (S k)). destruct (load_hidden sd (S k) ls) as [rest es].
  by constructor.
Qed.

Lemma unexpected_keys_nil m sd :
  (forall name, is_Some (sd !! name) -> name ∈ parameter_names m) ->
  unexpected_keys m sd = [].
Proof.
  intros H. unfold unexpected_keys.
  assert (Forall (fun k => k ∈ parameter_names m) (map_to_list sd).*1) as HF.
  { apply Forall_forall. intros k [[k' t] [-> Hk]]%list_elem_of_fmap.
    apply H. apply elem_of_map_to_list in Hk. by eexists. }
  induction HF as [|k ks Hk HF IH]; [done|].
  rewrite filter_cons_False by tauto. exact IH.
Qed.

Lemma unexpected_keys_nil_inv m sd name :
  unexpected_keys m sd = [] -> is_Some (sd !! name) -> name ∈ parameter_names m.
Proof.
  unfold unexpected_keys. intros H [t Ht].
  apply fmap_nil_inv in H.
  destruct (decide (name ∈ parameter_names m)) as [|Hn]; [done|].
  assert (name ∈ filter (fun k => k ∉ parameter_names m) (map_to_list sd).*1)
    as Hin.
  { apply list_elem_of_filter. split; [done|].
    apply list_elem_of_fmap. exists (name, t). split; [done|].
    by apply elem_of_map_to_list. }
  rewrite H in Hin. by apply elem_of_nil in Hin.
Qed.

(** ** Architectures *)

Lemma layer_sizes_outputs i hs : (layer_sizes i hs).*2 = hs.
Proof. revert i. induction hs as [|h hs IH]; intros i; simpl; [done | by rewrite IH]. Qed.

Lemma layer_sizes_length i hs : length (layer_sizes i hs) = length hs.
Proof. revert i. induction hs as [|h hs IH]; intros i; simpl; [done | by rewrite IH]. Qed.

Lemma last_cons_default (x d d' : nat) (l : list nat) :
  List.last (x :: l) d = List.last (x :: l) d'.
Proof.
  revert x. induction l as [|y l IH]; intros x; [done|].
  change (List.last (y :: l) d = List.last (y :: l) d'). apply IH.
Qed.

Lemma layer_sizes_zip i o hs :
  layer_sizes i hs ++ [(List.last hs i, o)] = zip (i :: hs) (hs ++ [o]).
Proof.
  revert i. induction hs as [|h hs IH]; intros i; [done|].
  specialize (IH h). simpl. f_equal.
  etrans; [|exact IH]. destruct hs as [|x hs]; [done|].
  by rewrite (last_cons_default x i h).
Qed.

Lemma has_arch_spec i o hs m :
  has_arch i o hs m = true <->
  map linear_dims (hidden_layers m) = layer_sizes i hs
  /\ linear_dims (output m) = (List.last hs i, o)
  /\ Forall (fun l => shape (weight l) = [out_features l; in_features l]
                      /\ shape (bias l) = [out_features l]) (affine_layers m).
Proof.
  unfold has_arch. rewrite !andb_true_iff, !bool_decide_eq_true.
  rewrite forallb_forall, Forall_forall. unfold linear_ok.
  setoid_rewrite andb_true_iff. setoid_rewrite bool_decide_eq_true.
  setoid_rewrite <- list_elem_of_In. tauto.
Qed.

Lemma has_arch_outputs i o hs m :
  has_arch i o hs m = true -> map out_features (hidden_layers m) = hs.
Proof.
  intros (Hd & _)%has_arch_spec.
  rewrite <- (layer_sizes_outputs i hs), <- Hd.
  by rewrite <- list_fmap_compose.
Qed.

Lemma has_arch_hidden_length i o hs m :
  has_arch i o hs m = true -> length (hidden_layers m) = length hs.
Proof.
  intros H%has_arch_outputs. by rewrite <- H, length_map.
Qed.

Lemma has_arch_bias_shape i o hs m j l :
  has_arch i o hs m = true -> hidden_layers m !! j = Some l ->
  shape (bias l) = [out_features l].
Proof.
  intros (_ & _ & HF)%has_arch_spec Hj. rewrite Forall_forall in HF.
  apply HF. unfold affine_layers. apply elem_of_app. left.
  by eapply list_elem_of_lookup_2.
Qed.

Lemma new_layers_dims (init : string -> nat -> A) k dims :
  map linear_dims (new_layers init k dims) = dims.
Proof.
  revert k. induction dims as [|[i o] dims IH]; intros k; simpl; [done|].
  by rewrite IH.
Qed.

Lemma new_layers_ok (init : string -> nat -> A) k dims :
  Forall (fun l => shape (weight l) = [out_features l; in_features l]
                   /\ shape (bias l) = [out_features l])
    (new_layers init k dims).
Proof.
  revert k. induction dims as [|[i o] dims IH]; intros k; simpl;
    constructor; [done | apply IH].
Qed.

Lemma Network_has_arch (init : string -> nat -> A) i o hs :
  has_arch i o hs (Network init i o hs) = true.
Proof.
  apply has_arch_spec. unfold affine_layers. simpl.
  rewrite new_layers_dims. repeat split.
  apply Forall_app. split; [apply new_layers_ok | by repeat constructor].
Qed.

Lemma Network_layer_dims (init : string -> nat -> A) i o hs :
  layer_dims (Network init i o hs) = zip (i :: hs) (hs ++ [o]).
Proof.
  unfold layer_dims, affine_layers. simpl.
  rewrite map_app, new_layers_dims. simpl. apply layer_sizes_zip.
Qed.

Lemma same_dims_same_shape ls ls' :
  map linear_dims ls = map linear_dims ls' ->
  Forall (fun l => shape (weight l) = [out_features l; in_features l]
                   /\ shape (bias l) = [out_features l]) ls ->
  Forall (fun l => shape (weight l) = [out_features l; in_features l]
                   /\ shape (bias l) = [out_features l]) ls' ->
  Forall2 same_shape ls ls'.
Proof.
  revert ls'. induction ls as [|l ls IH]; intros [|l' ls']; simpl; try done.
  intros [= Hi Ho Hrest] [[Hw Hb] HF]%Forall_cons [[Hw' Hb'] HF']%Forall_cons.
  constructor; [|by apply IH].
  unfold same_shape, linear_dims. rewrite Hw, Hb, Hw', Hb', Hi, Ho. done.
Qed.

Lemma has_arch_same_shape i o hs m m' :
  has_arch i o hs m = true -> has_arch i o hs m' = true ->
  Forall2 same_shape (hidden_layers m) (hidden_layers m')
  /\ same_shape (output m) (output m').
Proof.
  intros (Hd & Ho & HF)%has_arch_spec (Hd' & Ho' & HF')%has_arch_spec.
  unfold affine_layers in HF, HF'.
  apply Forall_app in HF as [HF HFo], HF' as [HF' HFo'].
  split.
  - apply same_dims_same_shape; [congruence | done | done].
  - apply Forall_singleton in HFo as [Hw Hb], HFo' as [Hw' Hb'].
    unfold same_shape. rewrite Hw, Hb, Hw', Hb', Ho, Ho'.
    injection Ho as Hi1 Ho1. injection Ho' as Hi2 Ho2.
    by rewrite Hi1, Ho1, Hi2, Ho2.
Qed.

(** Loading the parameters of a model of the same architecture copies every
    one of them and raises nothing. *)
Lemma load_state_dict_same_arch i o hs m m0 :
  has_arch i o hs m = true -> has_arch i o hs m0 = true ->
  load_state_dict m (state_dict m0)
  = (mkModel (hidden_layers m0) (output m0) (dropout_p m) (training m), Ok tt).
Proof.
  intros Hm Hm0. destruct (has_arch_same_shape _ _ _ _ _ Hm Hm0) as [HF Ho].
  unfold load_state_dict.
  rewrite (load_hidden_copy _ 0 _ (hidden_layers m0)); [|done|].
  2:{ intros j l' Hj. split;
        [by apply state_dict_hidden_weight | by apply state_dict_hidden_bias]. }
  destruct Ho as (Hod & Hw & Hb).
  rewrite (load_linear_copy _ _ _ (output m0));
    [|apply state_dict_output_weight|apply state_dict_output_bias|done..].
  rewrite unexpected_keys_nil; [done|].
  intros name Hname%state_dict_keys.
  eapply parameter_names_length; [|done].
  by rewrite (has_arch_hidden_length _ _ _ _ Hm),
    (has_arch_hidden_length _ _ _ _ Hm0).
Qed.

(** A load that raises nothing was a load between equal hidden widths. *)
Lemma load_state_dict_ok_same_hidden i1 o1 hs1 i2 o2 hs2 m1 m2 :
  has_arch i1 o1 hs1 m1 = true -> has_arch i2 o2 hs2 m2 = true ->
  (load_state_dict m2 (state_dict m1)).2 = Ok tt -> hs1 = hs2.
Proof.
  intros H1 H2. unfold load_state_dict.
  destruct (load_hidden (state_dict m1) 0 (hidden_layers m2)) as [rs eh] eqn:Hh.
  destruct (load_linear (state_dict m1) "output" (output m2)) as [ro eo].
  destruct (unexpected_keys m2 (state_dict m1)) as [|u us] eqn:Hu; [|done].
  destruct eh as [|e eh]; [|done]. simpl. intros _.
  apply load_hidden_no_issue in Hh as [HF Hsd].
  assert (length (hidden_layers m1) = length (hidden_layers m2)) as Hlen.
  { apply Nat.le_antisymm.
    - apply Nat.le_ngt. intros Hlt.
      destruct (lookup_lt_is_Some_2 (hidden_layers m1)
                  (length (hidden_layers m2)) Hlt) as [l Hl].
      pose proof (state_dict_hidden_weight _ _ _ Hl) as Hk.
      assert (weight_name (hidden_prefix (length (hidden_layers m2)))
                ∈ parameter_names m2) as Hin.
      { eapply unexpected_keys_nil_inv; [done | by eexists]. }
      apply parameter_names_spec in Hin as [(j & Hj & [E|E])|[E|E]].
      + apply weight_name_inj, hidden_prefix_inj in E. lia.
      + by apply weight_bias_distinct in E.
      + by apply weight_name_inj, hidden_prefix_not_output in E.
      + by apply weight_bias_distinct in E.
    - apply Nat.le_ngt. intros Hlt.
      rewrite (Forall2_length _ _ _ HF) in Hlt.
      destruct (lookup_lt_is_Some_2 rs (length (hidden_layers m1)) Hlt)
        as [r Hr].
      destruct (Hsd _ _ Hr) as [Hw _]. simpl in Hw.
      pose proof (state_dict_hidden_inv m1 _ (weight r) (or_introl Hw)).
      lia. }
  rewrite <- (has_arch_outputs _ _ _ _ H1), <- (has_arch_outputs _ _ _ _ H2).
  apply list_eq. intros j. rewrite !list_lookup_fmap.
  destruct (hidden_layers m1 !! j) as [l1|] eqn:Hl1.
  - destruct (lookup_lt_is_Some_2 (hidden_layers m2) j) as [l2 Hl2].
    { rewrite <- Hlen. by eapply lookup_lt_Some. }
    rewrite Hl2. simpl. f_equal.
    destruct (Forall2_lookup_l _ _ _ _ _ HF Hl2) as (r & Hr & _ & _ & Hb).
    destruct (Hsd _ _ Hr) as [_ Hrb]. simpl in Hrb.
    rewrite (state_dict_hidden_bias _ _ _ Hl1) in Hrb. injection Hrb as Hrb.
    rewrite <- Hrb in Hb.
    rewrite (has_arch_bias_shape _ _ _ _ _ _ H1 Hl1) in Hb.
    rewrite (has_arch_bias_shape _ _ _ _ _ _ H2 Hl2) in Hb. congruence.
  - apply lookup_ge_None in Hl1. rewrite Hlen in Hl1.
    apply lookup_ge_None in Hl1. by rewrite Hl1.
Qed.

(** The call never changes the widths of a layer or the shape of a
    parameter, whether it raises or not. *)
Lemma load_state_dict_layer_dims m sd :
  layer_dims (load_state_dict m sd).1 = layer_dims m.
Proof.
  unfold load_state_dict, layer_dims, affine_layers.
  pose proof (load_hidden_dims sd 0 (hidden_layers m)) as Hh.
  pose proof (load_linear_dims sd "output" (output m)) as Ho.
  destruct (load_hidden sd 0 (hidden_layers m)) as [rs eh].
  destruct (load_linear sd "output" (output m)) as [ro eo].
  simpl in Hh, Ho.
  destruct (unexpected_keys m sd ++ eh ++ eo); simpl;
    by rewrite !map_app, Hh; simpl; rewrite Ho.
Qed.

Lemma load_state_dict_shapes m sd :
  Forall2 (fun l r => shape (weight r) = shape (weight l)
                      /\ shape (bias r) = shape (bias l))
    (affine_layers m) (affine_layers (load_state_dict m sd).1).
Proof.
  unfold load_state_dict, affine_layers.
  pose proof (load_hidden_shapes sd 0 (hidden_layers m)) as Hh.
  pose proof (load_linear_shapes sd "output" (output m)) as Ho.
  destruct (load_hidden sd 0 (hidden_layers m)) as [rs eh].
  destruct (load_linear sd "output" (output m)) as [ro eo].
  simpl in Hh, Ho.
  destruct (unexpected_keys m sd ++ eh ++ eo); simpl;
    (apply Forall2_app; [done | by constructor]).
Qed.

Lemma load_state_dict_mode m sd :
  training (load_state_dict m sd).1 = training m
  /\ dropout_p (load_state_dict m sd).1 = dropout_p m.
Proof.
  unfold load_state_dict.
  destruct (load_hidden sd 0 (hidden_layers m)) as [rs eh].
  destruct (load_linear sd "output" (output m)) as [ro eo].
  by destruct (unexpected_keys m sd ++ eh ++ eo).
Qed.

Lemma load_state_dict_outcome m sd :
  (load_state_dict m sd).2 = Ok tt
  \/ exists issues, issues <> []
       /\ (load_state_dict m sd).2 = Raise (StateDictError issues).
Proof.
  unfold load_state_dict.
  destruct (load_hidden sd 0 (hidden_layers m)) as [rs eh].
  destruct (load_linear sd "output" (output m)) as [ro eo].
  destruct (unexpected_keys m sd ++ eh ++ eo) as [|x xs]; simpl;
    [by left | right; eexists; split; [|reflexivity]; discriminate].
Qed.

End CheckpointFacts.

(** ** load_checkpoint *)

Section LoadCheckpoint.
Context {A : Type}.
Implicit Types (m : Model A) (ck : gmap string (PyVal A)).
Implicit Types (fs : gmap string (gmap string (PyVal A))).

Lemma load_checkpoint_fields (init : string -> nat -> A) fs path ck i o hs sd :
  fs !! path = Some ck ->
  ck !! "input_size"%string = Some (VInt i) ->
  ck !! "output_size"%string = Some (VInt o) ->
  ck !! "hidden_layers"%string = Some (VList hs) ->
  ck !! "state_dict"%string = Some (VState sd) ->
  load_checkpoint init fs path
  = (_ <- (load_state_dict (Network init i o hs) sd).2 ;;
     Ok (load_state_dict (Network init i o hs) sd).1).
Proof.
  intros Hf Hi Ho Hh Hs. unfold load_checkpoint, torch_load, getitem.
  rewrite Hf. simpl. rewrite Hi, Ho, Hh. simpl. rewrite Hs. simpl.
  by destruct (load_state_dict (Network init i o hs) sd).
Qed.

Lemma checkpoint_fields m :
  checkpoint m !! "input_size"%string = Some (VInt 784)
  /\ checkpoint m !! "output_size"%string = Some (VInt 10)
  /\ checkpoint m !! "hidden_layers"%string
     = Some (VList (map out_features (hidden_layers m)))
  /\ checkpoint m !! "state_dict"%string = Some (VState (state_dict m)).
Proof. by repeat split. Qed.

Lemma load_checkpoint_inv (init : string -> nat -> A) fs path m :
  load_checkpoint init fs path = Ok m ->
  exists ck i o hs sd,
    fs !! path = Some ck
    /\ ck !! "input_size"%string = Some (VInt i)
    /\ ck !! "output_size"%string = Some (VInt o)
    /\ ck !! "hidden_layers"%string = Some (VList hs)
    /\ ck !! "state_dict"%string = Some (VState sd)
    /\ load_state_dict (Network init i o hs) sd = (m, Ok tt).
Proof.
  unfold load_checkpoint, torch_load, getitem.
  destruct (fs !! path) as [ck|] eqn:Hf; [|done]. simpl.
  destruct (ck !! "input_size"%string) as [vi|] eqn:Hi; [|done]. simpl.
  destruct (ck !! "output_size"%string) as [vo|] eqn:Ho; [|done]. simpl.
  destruct (ck !! "hidden_layers"%string) as [vh|] eqn:Hh; [|done]. simpl.
  destruct vi as [i| |]; try done. simpl.
  destruct vo as [o| |]; try done. simpl.
  destruct vh as [|hs|]; try done. simpl.
  destruct (ck !! "state_dict"%string) as [[| |sd]|] eqn:Hs; try done.
  simpl.
  destruct (load_state_dict (Network init i o hs) sd) as [m' [[]|e]] eqn:Hl;
    [|done].
  simpl. intros [= <-]. by exists ck, i, o, hs, sd.
Qed.

Lemma load_checkpoint_same_arch (init : string -> nat -> A)
    fs path ck i o hs m0 :
  fs !! path = Some ck ->
  ck !! "input_size"%string = Some (VInt i) ->
  ck !! "output_size"%string = Some (VInt o) ->
  ck !! "hidden_layers"%string = Some (VList hs) ->
  ck !! "state_dict"%string = Some (VState (state_dict m0)) ->
  has_arch i o hs m0 = true ->
  load_checkpoint init fs path
  = Ok (mkModel (hidden_layers m0) (output m0) (1 # 2) true).
Proof.
  intros Hf Hi Ho Hh Hs Hm0.
  rewrite (load_checkpoint_fields init fs path ck i o hs (state_dict m0))
    by done.
  by rewrite (load_state_dict_same_arch _ _ _ _ _
                (Network_has_arch init i o hs) Hm0).
Qed.

Lemma load_checkpoint_of_checkpoint (init : string -> nat -> A)
    fs path hs m :
  has_arch 784 10 hs m = true ->
  load_checkpoint init (torch_save (checkpoint m) path fs) path
  = Ok (mkModel (hidden_layers m) (output m) (1 # 2) true).
Proof.
  intros Hm. destruct (checkpoint_fields m) as (Hi & Ho & Hh & Hs).
  rewrite (has_arch_outputs _ _ _ _ Hm) in Hh.
  apply (load_checkpoint_same_arch init _ path (checkpoint m) 784 10 hs m);
    try done.
  apply lookup_insert_eq.
Qed.

Lemma torch_load_save fs path ck :
  torch_load path (torch_save ck path fs) = Ok ck.
Proof. unfold torch_load, torch_save. by rewrite lookup_insert_eq. Qed.

End LoadCheckpoint.

(** * The claims about checkpoints *)

Section CheckpointClaims.
Context {A : Type}.
Implicit Types (m : Model A) (ck : gmap string (PyVal A)).
Implicit Types (fs : gmap string (gmap string (PyVal A))).

(** C1 (as amended). The checkpoint dictionary records input_size 784 and
    output_size 10 as literals. For every list of hidden widths and every
    model of architecture (784, 10, hidden), whatever the values of its
    parameters, saving the dictionary built from the model and calling
    load_checkpoint on the saved file returns a model whose layers, and so
    whose parameter values, are identical to those of the saved model. *)
Theorem checkpoint_round_trip (init : string -> nat -> A) fs path hs m :
  has_arch 784 10 hs m = true ->
  exists m',
    load_checkpoint init (torch_save (checkpoint m) path fs) path = Ok m'
    /\ hidden_layers m' = hidden_layers m
    /\ output m' = output m
    /\ named_parameters m' = named_parameters m
    /\ state_dict m' = state_dict m.
Proof.
  intros Hm. rewrite (load_checkpoint_of_checkpoint init fs path hs m Hm).
  eexists. split; [reflexivity|]. by repeat split.
Qed.

(** C2. Take any record whose hidden_layers field holds the widths hs1 and
    whose state_dict field holds the parameters of a model of hidden widths
    hs1, as the dictionary built by the notebook does. Loading these
    parameters into any model built with hidden widths hs2 different from
    hs1 raises the state-dict error with at least one issue listed, and
    leaves the widths of every layer and the shape of every parameter of
    the target model as they were: nothing is reshaped, truncated or
    padded. *)
Theorem load_state_dict_mismatch_raises ck sd i1 o1 hs1 i2 o2 hs2 m1 m2 :
  ck !! "hidden_layers"%string = Some (VList hs1) ->
  ck !! "state_dict"%string = Some (VState sd) ->
  sd = state_dict m1 ->
  has_arch i1 o1 hs1 m1 = true ->
  has_arch i2 o2 hs2 m2 = true ->
  hs1 <> hs2 ->
  (exists issues, issues <> []
     /\ (load_state_dict m2 sd).2 = Raise (StateDictError issues))
  /\ layer_dims (load_state_dict m2 sd).1 = layer_dims m2
  /\ Forall2 (fun l r => shape (weight r) = shape (weight l)
                         /\ shape (bias r) = shape (bias l))
       (affine_layers m2) (affine_layers (load_state_dict m2 sd).1).
Proof.
  intros _ _ -> H1 H2 Hne. split; [|split].
  - destruct (load_state_dict_outcome m2 (state_dict m1)) as [Hok|Hraise];
      [|done].
    exfalso. apply Hne.
    by apply (load_state_dict_ok_same_hidden i1 o1 hs1 i2 o2 hs2 m1 m2).
  - apply load_state_dict_layer_dims.
  - apply load_state_dict_shapes.
Qed.

(** C3. For every record carrying input_size i, output_size o and hidden
    widths [h1,...,hn], a model returned by load_checkpoint has exactly n+1
    affine layers, of widths (i,h1), (h1,h2), ..., (hn,o) in this order; and
    load_checkpoint does return a model when the parameters of the record
    are those of a model of that architecture. *)
Theorem load_checkpoint_layer_dims (init : string -> nat -> A)
    fs path ck i o hs sd :
  fs !! path = Some ck ->
  ck !! "input_size"%string = Some (VInt i) ->
  ck !! "output_size"%string = Some (VInt o) ->
  ck !! "hidden_layers"%string = Some (VList hs) ->
  ck !! "state_dict"%string = Some (VState sd) ->
  (forall m, load_checkpoint init fs path = Ok m ->
     length (affine_layers m) = S (length hs)
     /\ layer_dims m = zip (i :: hs) (hs ++ [o]))
  /\ (forall m0, has_arch i o hs m0 = true -> sd = state_dict m0 ->
        exists m, load_checkpoint init fs path = Ok m).
Proof.
  intros Hf Hi Ho Hh Hs.
  rewrite (load_checkpoint_fields init fs path ck i o hs sd) by done.
  split.
  - intros m Hm.
    assert (layer_dims m = zip (i :: hs) (hs ++ [o])) as Hd.
    { pose proof (load_state_dict_layer_dims (Network init i o hs) sd) as Hd.
      rewrite Network_layer_dims in Hd.
      destruct (load_state_dict (Network init i o hs) sd).2; simplify_eq/=.
      done. }
    split; [|done].
    apply (f_equal length) in Hd. unfold layer_dims in Hd.
    rewrite length_map in Hd. rewrite Hd.
    rewrite length_zip_with, length_app. cbn [length]. lia.
  - intros m0 Hm0 ->.
    rewrite (load_state_dict_same_arch _ _ _ _ _
               (Network_has_arch init i o hs) Hm0).
    by eexists.
Qed.

Local Ltac in_fields := unfold required_fields; repeat constructor.

(** C6. Loading a record from which one of input_size, output_size,
    hidden_layers or state_dict is absent never returns a model: the call
    raises, either the key error of an absent field or, when an
    architecture field that is present does not hold a value of its type,
    the type error of that field. No value is substituted for the absent
    field. *)
Theorem load_checkpoint_missing_field (init : string -> nat -> A)
    fs path ck key :
  fs !! path = Some ck ->
  key ∈ required_fields ->
  ck !! key = None ->
  exists e, load_checkpoint init fs path = Raise e
    /\ ((exists k, e = KeyError k /\ k ∈ required_fields /\ ck !! k = None)
        \/ (exists k, e = TypeError k /\ k ∈ required_fields
                      /\ is_Some (ck !! k))).
Proof.
  intros Hf Hkey Hnone. unfold load_checkpoint, torch_load, getitem.
  rewrite Hf. simpl.
  assert (forall k, k ∈ required_fields -> ck !! k = None ->
            exists e, Raise (T := Model A) (KeyError k) = Raise e
              /\ ((exists k, e = KeyError k /\ k ∈ required_fields
                             /\ ck !! k = None)
                  \/ (exists k, e = TypeError k /\ k ∈ required_fields
                                /\ is_Some (ck !! k)))) as Hkeyerr.
  { intros k Hk Hn. eexists. split; [done|]. left. by exists k. }
  assert (forall k (v : PyVal A), k ∈ required_fields -> ck !! k = Some v ->
            exists e, Raise (T := Model A) (TypeError k) = Raise e
              /\ ((exists k, e = KeyError k /\ k ∈ required_fields
                             /\ ck !! k = None)
                  \/ (exists k, e = TypeError k /\ k ∈ required_fields
                                /\ is_Some (ck !! k)))) as Htyerr.
  { intros k v Hk Hv. eexists. split; [done|]. right. exists k.
    by rewrite Hv. }
  destruct (ck !! "input_size"%string) as [vi|] eqn:Hi; simpl;
    [|apply Hkeyerr; [in_fields | done]].
  destruct (ck !! "output_size"%string) as [vo|] eqn:Ho; simpl;
    [|apply Hkeyerr; [in_fields | done]].
  destruct (ck !! "hidden_layers"%string) as [vh|] eqn:Hh; simpl;
    [|apply Hkeyerr; [in_fields | done]].
  destruct vi as [i| |]; simpl;
    try (eapply Htyerr; [|exact Hi]; in_fields).
  destruct vo as [o| |]; simpl;
    try (eapply Htyerr; [|exact Ho]; in_fields).
  destruct vh as [|hs|]; simpl;
    try (eapply Htyerr; [|exact Hh]; in_fields).
  destruct (ck !! "state_dict"%string) as [vs|] eqn:Hs; simpl;
    [|apply Hkeyerr; [in_fields | done]].
  exfalso. unfold required_fields in Hkey.
  rewrite !elem_of_cons, elem_of_nil in Hkey.
  destruct Hkey as [->|[->|[->|[->|[]]]]]; congruence.
Qed.

End CheckpointClaims.

(** ** The checkpoint claims on concrete models *)

Lemma checkpoint_round_trip_witness :
  has_arch 784 10 [3; 2] trained_model = true
  /\ exists m',
       load_checkpoint zero_init
         (torch_save (checkpoint trained_model) "checkpoint.pth" ∅)
         "checkpoint.pth" = Ok m'
       /\ hidden_layers m' = hidden_layers trained_model
       /\ output m' = output trained_model
       /\ named_parameters m' = named_parameters trained_model
       /\ state_dict m' = state_dict trained_model.
Proof.
  split; [vm_compute; reflexivity|].
  apply (checkpoint_round_trip zero_init ∅ "checkpoint.pth" [3; 2]
           trained_model).
  vm_compute; reflexivity.
Defined.

(** C1 as stated fails: a model of architecture (3, 10, [4]) is saved under
    input_size 784, the literal of the dictionary, so load_checkpoint
    rebuilds a first layer of width 784 and the parameters do not fit. *)
Lemma checkpoint_round_trip_other_input :
  has_arch 3 10 [4] small_model = true
  /\ load_checkpoint zero_init
       (torch_save (checkpoint small_model) "checkpoint.pth" ∅)
       "checkpoint.pth"
     = Raise (StateDictError
                [SizeMismatch "hidden_layers.0.weight" [4; 3] [4; 784]]).
Proof. split; vm_compute; reflexivity. Qed.

Lemma load_state_dict_mismatch_raises_witness :
  exists issues, issues <> []
    /\ (load_state_dict (Network zero_init 784 10 [4; 2])
          (state_dict trained_model)).2
       = Raise (StateDictError issues).
Proof.
  apply (load_state_dict_mismatch_raises (checkpoint trained_model)
           (state_dict trained_model) 784 10 [3; 2] 784 10 [4; 2]
           trained_model (Network zero_init 784 10 [4; 2])).
  - vm_compute; reflexivity.
  - vm_compute; reflexivity.
  - reflexivity.
  - vm_compute; reflexivity.
  - vm_compute; reflexivity.
  - discriminate.
Defined.

Lemma load_checkpoint_layer_dims_witness :
  exists m,
    load_checkpoint zero_init
      (torch_save (checkpoint trained_model) "checkpoint.pth" ∅)
      "checkpoint.pth" = Ok m
    /\ length (affine_layers m) = 3
    /\ layer_dims m = [(784, 3); (3, 2); (2, 10)].
Proof.
  destruct (load_checkpoint_layer_dims zero_init
              (torch_save (checkpoint trained_model) "checkpoint.pth" ∅)
              "checkpoint.pth" (checkpoint trained_model) 784 10 [3; 2]
              (state_dict trained_model)) as [Hdims Hok].
  - vm_compute; reflexivity.
  - vm_compute; reflexivity.
  - vm_compute; reflexivity.
  - vm_compute; reflexivity.
  - vm_compute; reflexivity.
  - destruct (Hok trained_model) as [m Hm].
    + vm_compute; reflexivity.
    + reflexivity.
    + exists m. split; [exact Hm|]. exact (Hdims m Hm).
Defined.

Lemma load_checkpoint_missing_field_witness :
  exists e,
    load_checkpoint zero_init
      (torch_save (delete "state_dict"%string (checkpoint trained_model))
         "checkpoint.pth" ∅)
      "checkpoint.pth" = Raise e.
Proof.
  destruct (load_checkpoint_missing_field zero_init
              (torch_save (delete "state_dict"%string (checkpoint trained_model))
                 "checkpoint.pth" ∅)
              "checkpoint.pth"
              (delete "state_dict"%string (checkpoint trained_model))
              "state_dict") as (e & He & _).
  - vm_compute; reflexivity.
  - unfold required_fields. repeat constructor.
  - vm_compute; reflexivity.
  - by exists e.
Defined.

(** The notebook's own run: the parameters of the (784, 10, [512; 256; 128])
    model do not load into the (784, 10, [400; 200; 100]) model; the issues
    are those of the error message the notebook prints. *)
Example notebook_size_mismatch :
  (load_state_dict (Network zero_init 784 10 [400; 200; 100])
     (state_dict (Network zero_init 784 10 [512; 256; 128]))).2
  = Raise (StateDictError
      [SizeMismatch "hidden_layers.0.weight" [512; 784] [400; 784];
       SizeMismatch "hidden_layers.0.bias" [512] [400];
       SizeMismatch "hidden_layers.1.weight" [256; 512] [200; 400];
       SizeMismatch "hidden_layers.1.bias" [256] [200];
       SizeMismatch "hidden_layers.2.weight" [128; 256] [100; 200];
       SizeMismatch "hidden_layers.2.bias" [128] [100];
       SizeMismatch "output.weight" [10; 128] [10; 100]]).
Proof. vm_compute; reflexivity. Qed.

(** The names of the parameters, as the notebook prints them. *)
Example notebook_state_dict_keys :
  parameter_names (Network zero_init 784 10 [512; 256; 128])
  = ["hidden_layers.0.weight"; "hidden_layers.0.bias";
     "hidden_layers.1.weight"; "hidden_layers.1.bias";
     "hidden_layers.2.weight"; "hidden_layers.2.bias";
     "output.weight"; "output.bias"]%string.
Proof. vm_compute; reflexivity. Qed.

(** The model the notebook saves is the (784, 10, [400; 200; 100]) one left
    by the failed load, and load_checkpoint prints these layers for it. *)
Example notebook_reloaded_model :
  layer_dims <$>
    (let model :=
       (load_state_dict (Network zero_init 784 10 [400; 200; 100])
          (state_dict (Network zero_init 784 10 [512; 256; 128]))).1 in
     match load_checkpoint zero_init
             (torch_save (checkpoint model) "checkpoint.pth" ∅)
             "checkpoint.pth" with
     | Ok m => Some m
     | Raise _ => None
     end)
  = Some [(784, 400); (400, 200); (200, 100); (100, 10)].
Proof. vm_compute; reflexivity. Qed.

(** * Reshaping the input batch *)

Section ReshapeClaims.
Context {A : Type}.
Implicit Types (t images : Tensor A).

Lemma view_flatten_ok images b rest :
  shape images = b :: rest -> 0 < b ->
  flatten images
  = Ok {| shape := [b; numel rest]; data := data images |}.
Proof.
  intros Hs Hb. unfold flatten, view, batch_size. rewrite Hs. simpl.
  rewrite Nat.mul_1_r.
  rewrite bool_decide_eq_true_2.
  - do 3 f_equal. rewrite Nat.mul_comm. by rewrite Nat.div_mul by lia.
  - split; [lia|]. rewrite Nat.mul_comm. apply Nat.Div0.mod_mul.
Qed.

Lemma resize_shrink junk t new_shape :
  numel new_shape <= length (data t) ->
  data (resize_ junk t new_shape) = take (numel new_shape) (data t).
Proof.
  intros Hle. unfold resize_. simpl.
  replace (numel new_shape - length (data t)) with 0 by lia.
  simpl. by rewrite app_nil_r.
Qed.

Lemma resize_grow junk t new_shape :
  length (data t) <= numel new_shape ->
  data (resize_ junk t new_shape)
  = data t ++ map junk (seq 0 (numel new_shape - length (data t))).
Proof.
  intros Hle. unfold resize_. simpl.
  apply take_ge. rewrite length_app, length_map, length_seq. lia.
Qed.

Lemma resize_length junk t new_shape :
  length (data (resize_ junk t new_shape)) = numel new_shape.
Proof.
  unfold resize_. simpl. rewrite length_take, length_app, length_map, length_seq.
  lia.
Qed.

(** C9. The demonstration resizes its batch in place to 64 x 784. For every
    well-formed batch of b samples of 784 values with b different from 64
    the call raises nothing and returns 64 rows: when b is above 64 only the
    first 64 * 784 elements are kept, the others are dropped; when b is
    below 64 the (64 - b) * 784 missing elements are whatever the fresh
    memory holds. The flatten of the epoch loop, a view of shape
    (batch_size, -1), returns for every non-empty batch the same elements
    under the shape (b, number of values per sample). *)
Theorem demo_resize_changes_batch (junk : nat -> A) images b rest :
  shape images = b :: rest ->
  well_formed images ->
  numel rest = 784 ->
  0 < b ->
  b <> 64 ->
  shape (demo_reshape junk images) = [64; 784]
  /\ batch_size (demo_reshape junk images) <> batch_size images
  /\ length (data (demo_reshape junk images)) <> length (data images)
  /\ (64 < b ->
        data (demo_reshape junk images) = take (64 * 784) (data images)
        /\ drop (64 * 784) (data images) <> [])
  /\ (b < 64 ->
        data (demo_reshape junk images)
        = data images ++ map junk (seq 0 ((64 - b) * 784)))
  /\ (exists flat, flatten images = Ok flat
        /\ shape flat = [b; 784]
        /\ batch_size flat = batch_size images
        /\ data flat = data images
        /\ length (data flat) = length (data images)).
Proof.
  intros Hs Hwf Hrest Hb Hne.
  assert (length (data images) = b * 784) as Hlen.
  { unfold well_formed in Hwf. rewrite Hwf, Hs. unfold numel.
    cbn [fold_right]. fold (numel rest). by rewrite Hrest. }
  assert (numel [64; 784] = 64 * 784) as Hn.
  { unfold numel. cbn [fold_right]. by rewrite Nat.mul_1_r. }
  unfold demo_reshape.
  split; [done|]. split; [by unfold batch_size; rewrite Hs|].
  split; [rewrite resize_length, Hn, Hlen; lia|].
  split; [|split].
  - intros Hgt. split.
    + rewrite resize_shrink by (rewrite Hn, Hlen; lia). by rewrite Hn.
    + intros Hnil. apply (f_equal length) in Hnil.
      rewrite length_drop, Hlen in Hnil. cbn [length] in Hnil. lia.
  - intros Hlt. rewrite resize_grow by (rewrite Hn, Hlen; lia).
    rewrite Hn, Hlen. do 3 f_equal. lia.
  - exists {| shape := [b; numel rest]; data := data images |}.
    split; [apply (view_flatten_ok _ b rest); assumption|].
    rewrite Hrest. unfold batch_size. cbn [shape data hd]. rewrite Hs.
    repeat split; reflexivity.
Qed.

End ReshapeClaims.

Lemma demo_resize_changes_batch_witness :
  shape (demo_reshape zero_init_junk short_batch) = [64; 784]
  /\ batch_size (demo_reshape zero_init_junk short_batch)
     <> batch_size short_batch
  /\ exists flat, flatten short_batch = Ok flat /\ shape flat = [2; 784].
Proof.
  destruct (demo_resize_changes_batch zero_init_junk short_batch 2 [1; 28; 28])
    as (H1 & H2 & _ & _ & _ & (flat & H3 & H4 & _)).
  - reflexivity.
  - unfold well_formed. vm_compute. reflexivity.
  - vm_compute. reflexivity.
  - lia.
  - lia.
  - split; [exact H1|]. split; [exact H2|]. exists flat. by split.
Defined.

(** * The output of the model and the loss *)

Lemma rsum_exp_pos (x : list R) : x <> [] -> (0 < rsum (map exp x))%R.
Proof.
  assert (forall y : list R, (0 <= rsum (map exp y))%R) as Hnn.
  { induction y as [|v y IH]; simpl; [lra|].
    pose proof (exp_pos v). lra. }
  destruct x as [|v x]; [done|]. intros _. simpl.
  pose proof (exp_pos v). pose proof (Hnn x). lra.
Qed.

Lemma rsum_map_div (s : R) (x : list R) :
  rsum (map (fun v => (v / s)%R) x) = (rsum x / s)%R.
Proof.
  induction x as [|v x IH]; simpl; [unfold Rdiv; lra|].
  rewrite IH. unfold Rdiv. lra.
Qed.

Lemma log_softmax_is_log_of_softmax (x : list R) :
  x <> [] -> log_softmax x = map ln (softmax x).
Proof.
  intros Hx. pose proof (rsum_exp_pos x Hx) as Hpos.
  unfold log_softmax, softmax. rewrite map_map.
  apply map_ext. intros v.
  unfold Rdiv. rewrite ln_mult; [|apply exp_pos|by apply Rinv_0_lt_compat].
  rewrite ln_exp, ln_Rinv by done. lra.
Qed.

Lemma softmax_sums_to_one (x : list R) :
  x <> [] -> rsum (softmax x) = 1%R.
Proof.
  intros Hx. pose proof (rsum_exp_pos x Hx) as Hpos.
  unfold softmax.
  rewrite <- (map_map exp (fun e => (e / rsum (map exp x))%R)).
  rewrite rsum_map_div. field. lra.
Qed.

Lemma log_softmax_exp_sum (x : list R) :
  x <> [] -> rsum (map exp (log_softmax x)) = 1%R.
Proof.
  intros Hx. pose proof (rsum_exp_pos x Hx) as Hpos.
  rewrite <- (softmax_sums_to_one x Hx).
  unfold log_softmax, softmax. rewrite map_map. f_equal.
  apply map_ext. intros v.
  unfold Rminus, Rdiv. rewrite exp_plus, exp_Ropp, exp_ln by done. done.
Qed.

Lemma log_softmax_length (x : list R) : length (log_softmax x) = length x.
Proof. unfold log_softmax. by rewrite length_map. Qed.

Lemma linear_apply_ok (l : Linear R) (x : list R) :
  length x = in_features l ->
  exists y, linear_apply l x = Ok y /\ length y = out_features l.
Proof.
  intros Hx. unfold linear_apply. rewrite bool_decide_eq_true_2 by done.
  eexists. split; [done|]. by rewrite length_map, length_seq.
Qed.

Lemma result_map_ok {T U : Type} (f : T -> result U) (P : U -> Prop)
    (l : list T) :
  Forall (fun x => exists y, f x = Ok y /\ P y) l ->
  exists ys, result_map f l = Ok ys /\ length ys = length l /\ Forall P ys.
Proof.
  induction 1 as [|x l (y & Hy & HP) _ (ys & Hys & Hlen & HF)]; simpl.
  - exists []. by repeat split.
  - rewrite Hy. simpl. rewrite Hys. simpl. exists (y :: ys).
    repeat split; [by rewrite <- Hlen | by constructor].
Qed.

Lemma linear_batch_ok (l : Linear R) (batch : list (list R)) :
  Forall (fun row => length row = in_features l) batch ->
  exists out, apply_module (nnLinear l) batch = Ok out
    /\ length out = length batch
    /\ Forall (fun row => length row = out_features l) out.
Proof.
  intros HF. simpl. apply result_map_ok.
  eapply Forall_impl; [exact HF|]. intros row Hrow. by apply linear_apply_ok.
Qed.

Lemma relu_batch_lengths (n : nat) (batch : list (list R)) :
  Forall (fun row => length row = n) batch ->
  Forall (fun row => length row = n) (map relu batch).
Proof.
  intros HF. apply Forall_fmap. eapply Forall_impl; [exact HF|].
  intros row Hrow. simpl. unfold relu. by rewrite length_map.
Qed.

(** The logits of the notebook's model: every sample gets ten of them. *)
Lemma notebook_logits_ok (l1 l2 l3 : Linear R) (batch : list (list R)) :
  map linear_dims [l1; l2; l3] = sequential_dims ->
  Forall (fun row => length row = 784) batch ->
  exists logits, sequential (notebook_logits l1 l2 l3) batch = Ok logits
    /\ length logits = length batch
    /\ Forall (fun row => length row = 10) logits.
Proof.
  intros [= Hi1 Ho1 Hi2 Ho2 Hi3 Ho3] HF. unfold notebook_logits.
  cbn [sequential].
  destruct (linear_batch_ok l1 batch) as (y1 & -> & Hn1 & HF1);
    [by rewrite Hi1|]. cbn [rbind apply_module].
  pose proof (relu_batch_lengths _ _ HF1) as HR1. rewrite Ho1, <- Hi2 in HR1.
  destruct (linear_batch_ok l2 _ HR1) as (y2 & Hy2 & Hn2 & HF2).
  cbn [apply_module] in Hy2. rewrite Hy2. cbn [rbind].
  pose proof (relu_batch_lengths _ _ HF2) as HR2. rewrite Ho2, <- Hi3 in HR2.
  destruct (linear_batch_ok l3 _ HR2) as (y3 & Hy3 & Hn3 & HF3).
  cbn [apply_module] in Hy3. rewrite Hy3. cbn [rbind].
  exists y3. split; [done|]. split.
  - rewrite Hn3, length_map, Hn2, length_map. done.
  - by rewrite Ho3 in HF3.
Qed.

Lemma sequential_app (ms1 ms2 : list nnModule) (batch : list (list R)) :
  sequential (ms1 ++ ms2) batch
  = (y <- sequential ms1 batch ;; sequential ms2 y).
Proof.
  revert batch. induction ms1 as [|m ms1 IH]; intros batch; simpl; [done|].
  destruct (apply_module m batch); simpl; [apply IH | done].
Qed.

Lemma nll_loss_ok (logps : list (list R)) (labels : list nat) (n : nat) :
  length labels = length logps ->
  Forall (fun row => length row = n) logps ->
  Forall (fun y => y < n) labels ->
  nll_loss logps labels
  = Ok (rsum (zip_with (fun row y => (- nth y row 0)%R) logps labels)
        / INR (length logps))%R.
Proof.
  intros Hlen Hrows Hlab. unfold nll_loss.
  rewrite bool_decide_eq_true_2 by done.
  assert (result_map nll_pick (zip logps labels)
          = Ok (zip_with (fun row y => (- nth y row 0)%R) logps labels))
    as ->; [|done].
  revert labels Hlen Hlab.
  induction Hrows as [|row logps Hrow _ IH]; intros [|y labels] Hlen Hlab;
    simplify_eq/=; [done|].
  apply Forall_cons in Hlab as [Hy Hlab].
  unfold nll_pick at 1. simpl.
  destruct (lookup_lt_is_Some_2 row y) as [v Hv]; [lia|].
  rewrite Hv. simpl. rewrite IH by done. simpl.
  by rewrite (nth_lookup_Some _ _ 0%R _ Hv).
Qed.

(** C5. For every value of the parameters and every batch of samples of
    784 values, the model, three affine maps interleaved with ReLU and ended
    by a log-softmax over the class dimension, returns for every sample the
    ten logarithms of the softmax probabilities of its logits, so the
    exponentials of the ten outputs of a sample sum to 1; and the loss of
    the notebook on these outputs is the mean over the batch of minus the
    output at the true class of each sample, that is the mean negative
    log-probability of the true class, no logarithm being taken by the
    loss itself. *)
Theorem model_output_log_probabilities (l1 l2 l3 : Linear R)
    (batch : list (list R)) (labels : list nat) :
  map linear_dims [l1; l2; l3] = sequential_dims ->
  Forall (fun row => length row = 784) batch ->
  length labels = length batch ->
  Forall (fun y => y < 10) labels ->
  notebook_model l1 l2 l3 = notebook_logits l1 l2 l3 ++ [nnLogSoftmax 1]
  /\ exists logits out,
       sequential (notebook_logits l1 l2 l3) batch = Ok logits
       /\ sequential (notebook_model l1 l2 l3) batch = Ok out
       /\ length out = length batch
       /\ out = map (fun z => map ln (softmax z)) logits
       /\ Forall (fun row => length row = 10
                             /\ rsum (map exp row) = 1%R) out
       /\ nll_loss out labels
          = Ok (rsum (zip_with (fun row y => (- nth y row 0)%R) out labels)
                / INR (length batch))%R
       /\ nll_loss out labels
          = Ok (rsum (zip_with
                        (fun z y => (- ln (nth y (softmax z) 1))%R)
                        logits labels)
                / INR (length batch))%R.
Proof.
  intros Hdims Hrows Hlen Hlab. split; [done|].
  destruct (notebook_logits_ok l1 l2 l3 batch Hdims Hrows)
    as (logits & Hlogits & Hn & HF).
  assert (Forall (fun z : list R => z <> []) logits) as Hne.
  { eapply Forall_impl; [exact HF|]. intros z Hz ->. discriminate Hz. }
  assert (map log_softmax logits = map (fun z => map ln (softmax z)) logits)
    as Hout.
  { apply Forall_fmap_ext_1. eapply Forall_impl; [exact Hne|].
    intros z Hz. by apply log_softmax_is_log_of_softmax. }
  exists logits, (map log_softmax logits).
  assert (Forall (fun row => length row = 10) (map log_softmax logits)) as HF10.
  { apply Forall_fmap. eapply Forall_impl; [exact HF|].
    intros z Hz. simpl. by rewrite log_softmax_length. }
  assert (nll_loss (map log_softmax logits) labels
          = Ok (rsum (zip_with (fun row y => (- nth y row 0)%R)
                        (map log_softmax logits) labels)
                / INR (length batch))%R) as Hloss.
  { rewrite (nll_loss_ok _ labels 10); [|by rewrite length_map, Hn|done..].
    by rewrite length_map, Hn. }
  split; [done|]. split.
  { change (notebook_model l1 l2 l3)
      with (notebook_logits l1 l2 l3 ++ [nnLogSoftmax 1]).
    rewrite sequential_app, Hlogits. done. }
  split; [by rewrite length_map|]. split; [done|]. split.
  { apply Forall_fmap. eapply Forall_impl; [exact HF|].
    intros z Hz. simpl. split; [by rewrite log_softmax_length|].
    apply log_softmax_exp_sum. intros ->. discriminate Hz. }
  split; [done|].
  rewrite Hloss. do 3 f_equal.
  clear -Hne Hlen Hn. rewrite <- Hn in Hlen. clear Hn.
  revert labels Hlen. induction Hne as [|z logits Hz _ IH];
    intros [|y labels] Hlen; simplify_eq/=; [done..|].
  rewrite IH by done. f_equal.
  rewrite (log_softmax_is_log_of_softmax z Hz).
  destruct (decide (y < length (softmax z))) as [Hy|Hy].
  - destruct (lookup_lt_is_Some_2 (softmax z) y Hy) as [p Hp].
    rewrite (nth_lookup_Some _ _ 1%R _ Hp).
    assert (map ln (softmax z) !! y = Some (ln p)) as Hl
      by (by rewrite list_lookup_fmap, Hp).
    by rewrite (nth_lookup_Some _ _ 0%R _ Hl).
  - rewrite !nth_overflow by (rewrite ?length_map; lia).
    by rewrite ln_1.
Qed.

(** * The arg-max prediction *)

(** The scan started behind a prefix whose largest entry, the first such,
    is at [best_index] ends at the arg-max prediction of the whole row. *)
Lemma argmax_from_spec (rest prefix : list R) (best_index : nat) (best : R) :
  prefix !! best_index = Some best ->
  Forall (fun v => (v <= best)%R) prefix ->
  Forall (fun v => (v < best)%R) (take best_index prefix) ->
  is_argmax (prefix ++ rest)
    (argmax_from best_index best (length prefix) rest).
Proof.
  revert prefix best_index best.
  induction rest as [|v rest IH]; intros prefix bi best Hbi Hle Hlt.
  - cbn [argmax_from]. rewrite app_nil_r. unfold is_argmax.
    rewrite (nth_lookup_Some _ _ 0%R _ Hbi).
    split; [by apply lookup_lt_Some in Hbi | done].
  - cbn [argmax_from].
    replace (prefix ++ v :: rest) with ((prefix ++ [v]) ++ rest)
      by (by rewrite <- app_assoc).
    replace (S (length prefix)) with (length (prefix ++ [v]))
      by (rewrite length_app; simpl; lia).
    destruct (Rlt_dec best v) as [Hv|Hv].
    + apply IH.
      * by rewrite lookup_app_r, Nat.sub_diag by lia.
      * apply Forall_app. split.
        -- eapply Forall_impl; [exact Hle|]. intros x Hx. simpl in Hx. lra.
        -- apply Forall_singleton. simpl. lra.
      * rewrite take_app_length.
        eapply Forall_impl; [exact Hle|]. intros x Hx. simpl in Hx. lra.
    + pose proof (lookup_lt_Some _ _ _ Hbi) as Hlen. apply IH.
      * by rewrite lookup_app_l.
      * apply Forall_app. split; [done|]. apply Forall_singleton. simpl. lra.
      * rewrite take_app_le by lia. done.
Qed.

Lemma argmax_is_argmax (row : list R) (i : nat) :
  argmax row = Ok i -> is_argmax row i.
Proof.
  destruct row as [|v rest]; [done|]. simpl. intros [= <-].
  apply (argmax_from_spec rest [v] 0 v); [done| |constructor].
  apply Forall_singleton. simpl. lra.
Qed.

Lemma argmax_nonempty (row : list R) :
  row <> [] -> exists i, argmax row = Ok i.
Proof. destruct row as [|v rest]; [done|]. intros _. by eexists. Qed.

(** A row has at most one arg-max prediction. *)
Lemma is_argmax_unique (row : list R) (i j : nat) :
  is_argmax row i -> is_argmax row j -> i = j.
Proof.
  assert (forall i j, is_argmax row i -> is_argmax row j -> ~ i < j) as H.
  { clear i j. intros i j (Hi & Hle & _) (Hj & _ & Hlt) Hij.
    destruct (lookup_lt_is_Some_2 row i Hi) as [x Hx].
    rewrite (nth_lookup_Some _ _ 0%R _ Hx) in Hle.
    assert (take j row !! i = Some x) as Hx' by (by rewrite lookup_take_lt).
    pose proof (proj1 (Forall_lookup _ _) Hlt i x Hx') as H1.
    destruct (lookup_lt_is_Some_2 row j Hj) as [y Hy].
    rewrite (nth_lookup_Some _ _ 0%R _ Hy) in H1.
    pose proof (proj1 (Forall_lookup _ _) Hle j y Hy) as H2.
    simpl in *. lra. }
  intros Hi Hj. pose proof (H i j Hi Hj). pose proof (H j i Hj Hi). lia.
Qed.

Lemma argmax_equals_label (row : list R) (i label : nat) :
  argmax row = Ok i -> (i = label <-> is_argmax row label).
Proof.
  intros Hi. apply argmax_is_argmax in Hi. split.
  - by intros <-.
  - intros Hl. by apply (is_argmax_unique row).
Qed.

(** The predictions of the rows of a batch, and the number of those equal
    to the label. *)
Lemma predictions_correct (rows : list (list R)) (labels : list nat) :
  Forall (fun row => row <> []) rows ->
  exists predicted,
    result_map argmax rows = Ok predicted
    /\ length predicted = length rows
    /\ length (filter (fun p => p.1 = p.2) (zip predicted labels))
       = length (correct_samples (zip rows labels)).
Proof.
  intros HF. revert labels.
  induction HF as [|row rows Hrow _ IH]; intros labels.
  - exists []. by repeat split.
  - destruct (argmax_nonempty row Hrow) as [i Hi].
    destruct labels as [|label labels].
    + destruct (IH []) as (predicted & Hp & Hlen & _).
      exists (i :: predicted). cbn [result_map]. rewrite Hi, Hp.
      cbn [rbind length]. by rewrite Hlen.
    + destruct (IH labels) as (predicted & Hp & Hlen & Hcount).
      exists (i :: predicted). cbn [result_map]. rewrite Hi, Hp.
      cbn [rbind length]. split; [done|]. split; [by rewrite Hlen|].
      unfold correct_samples in *. cbn [zip zip_with].
      rewrite !filter_cons. cbn [fst snd].
      pose proof (argmax_equals_label row i label Hi) as Hiff.
      destruct (decide (i = label)) as [He|He];
        destruct (decide (is_argmax row label)) as [Ha|Ha];
        cbn [length]; rewrite ?Hcount; tauto.
Qed.

Lemma predictions_inv (rows : list (list R)) (predicted : list nat) :
  result_map argmax rows = Ok predicted ->
  Forall (fun row => row <> []) rows /\ length predicted = length rows.
Proof.
  revert predicted. induction rows as [|row rows IH]; intros predicted.
  - simpl. by intros [= <-].
  - cbn [result_map]. destruct row as [|v row]; [done|]. cbn [argmax rbind].
    destruct (result_map argmax rows) as [ps|] eqn:Hps; [|done].
    cbn [rbind]. intros [= <-]. destruct (IH ps eq_refl) as [HF Hlen].
    split; [by constructor | cbn [length]; by rewrite Hlen].
Qed.

Lemma correct_count_run (output : Tensor R) (labels : list nat)
    (rows : list (list R)) :
  tensor_rows output = Ok rows ->
  length rows = length labels ->
  Forall (fun row => row <> []) rows ->
  correct_count output labels
  = Ok (length (correct_samples (zip rows labels))).
Proof.
  intros Hrows Hlen HF. unfold correct_count. rewrite Hrows. cbn [rbind].
  destruct (predictions_correct rows labels HF) as (ps & Hps & Hl & Hc).
  rewrite Hps. cbn [rbind].
  rewrite bool_decide_eq_true_2 by congruence. by rewrite Hc.
Qed.

Lemma correct_count_inv (output : Tensor R) (labels : list nat) (n : nat) :
  correct_count output labels = Ok n ->
  exists rows,
    tensor_rows output = Ok rows
    /\ length rows = length labels
    /\ Forall (fun row => row <> []) rows.
Proof.
  unfold correct_count. destruct (tensor_rows output) as [rows|]; [|done].
  cbn [rbind].
  destruct (result_map argmax rows) as [ps|] eqn:Hps; [|done]. cbn [rbind].
  case_bool_decide as Hlen; [|done]. intros _.
  apply predictions_inv in Hps as [HF Hl]. exists rows.
  split; [done|]. split; [congruence | done].
Qed.

(** * The training loop *)

Section TrainingClaims.
Context (M G : Type).
Context (forward : bool -> M -> Tensor R -> result (Tensor R)).
Context (criterion : Tensor R -> list nat -> result R).
Context (zero_grad : G -> G).
Context (backward : bool -> M -> Tensor R -> list nat -> G -> G).
Context (optimizer_step : M -> G -> M).

Local Abbreviation step :=
  (train_step M G forward criterion zero_grad backward optimizer_step).
Local Abbreviation run_batches :=
  (train_batches M G forward criterion zero_grad backward optimizer_step).
Local Abbreviation run_epochs :=
  (train_epochs M G forward criterion zero_grad backward optimizer_step).

Implicit Types (st : TrainState M G) (batch : Tensor R * list nat).

Local Ltac unfold_state_updates :=
  cbv [log set_grads set_model set_running_loss set_training set_steps
       add_report print_loss after_step step_ops validation_ops
       ts_model ts_grads ts_training running_loss steps printed reports
       trace].


Lemma train_step_inv st batch st' :
  step st batch = Ok st' ->
  exists flat out loss,
    flatten batch.1 = Ok flat
    /\ forward (ts_training st) (ts_model st) flat = Ok out
    /\ criterion out batch.2 = Ok loss
    /\ st' = after_step M G zero_grad backward optimizer_step st flat batch.2 loss.
Proof.
  destruct st as [m g mode rl n ps rs tr]. unfold train_step.
  destruct (flatten batch.1) as [flat|] eqn:Hf; [|done].
  unfold_state_updates. cbn [rbind].
  destruct (forward mode m flat) as [out|] eqn:Ho; [|done].
  cbn [rbind]. destruct (criterion out batch.2) as [loss|] eqn:Hl; [|done].
  cbn [rbind]. intros [= <-]. exists flat, out, loss.
  repeat split; try done. by rewrite <- !app_assoc.
Qed.

Lemma train_step_run st batch flat out loss :
  flatten batch.1 = Ok flat ->
  forward (ts_training st) (ts_model st) flat = Ok out ->
  criterion out batch.2 = Ok loss ->
  step st batch
  = Ok (after_step M G zero_grad backward optimizer_step st flat batch.2 loss).
Proof.
  destruct st as [m g mode rl n ps rs tr]. intros Hf Ho Hl.
  unfold train_step. rewrite Hf. unfold_state_updates.
  cbn [ts_training ts_model] in Ho. cbn [rbind].
  rewrite Ho. cbn [rbind]. rewrite Hl. cbn [rbind].
  by rewrite <- !app_assoc.
Qed.

Lemma train_batches_trace st batches st' :
  run_batches st batches = Ok st' ->
  trace st' = trace st ++ concat (replicate (length batches)
                                    (step_ops (ts_training st)))
  /\ ts_training st' = ts_training st
  /\ steps st' = steps st
  /\ printed st' = printed st
  /\ reports st' = reports st.
Proof.
  revert st. induction batches as [|batch batches IH]; intros st; simpl.
  - intros [= <-]. by rewrite app_nil_r.
  - destruct (step st batch) as [st1|] eqn:H1; [|done]. simpl.
    intros H2. apply train_step_inv in H1 as (flat & out & loss & _ & _ & _ & ->).
    apply IH in H2 as (Ht & Hm & Hs & Hp & Hr). simpl in *.
    rewrite Ht, Hm, Hs, Hp, Hr. by rewrite <- app_assoc.
Qed.

(** The run over [epochs] epochs prints one training loss per epoch, as the
    five lines under the notebook's cell show for epochs = 5. *)
Lemma train_epochs_printed epochs e trainloader st st' :
  run_epochs epochs e trainloader st = Ok st' ->
  length (printed st') = length (printed st) + epochs.
Proof.
  revert e st. induction epochs as [|epochs IH]; intros e st; simpl.
  - intros [= <-]. lia.
  - destruct (run_batches (set_running_loss M G 0%R st) (trainloader e))
      as [st1|] eqn:H1; [|done]. cbn [rbind].
    case_bool_decide as Hempty; [done|]. intros H2.
    apply train_batches_trace in H1 as (_ & _ & _ & Hp & _).
    apply IH in H2. rewrite H2. unfold print_loss. cbn [printed].
    rewrite length_app, Hp. destruct st. simpl. lia.
Qed.

(** C4. For every batch of at least one sample on which the forward pass
    and the loss of the framework return, one pass through the body of the
    loop returns, and it has made exactly these calls in this order: next
    batch, flatten, zero the gradients, forward, loss, backward, optimizer
    step, accumulate the loss. The flattened input has shape (batch size,
    values per sample); the gradients used by the update are those of this
    batch alone, the update is applied once to the parameters the forward
    pass ran on, and the loss reported is the one computed before the
    update. A run over several batches makes these calls once per batch,
    batch after batch. *)
Theorem train_step_operations st (images : Tensor R) (labels : list nat)
    b rest out loss :
  shape images = b :: rest ->
  0 < b ->
  forward (ts_training st) (ts_model st)
    (mkTensor [b; numel rest] (data images)) = Ok out ->
  criterion out labels = Ok loss ->
  (exists st',
     step st (images, labels) = Ok st'
     /\ trace st'
        = trace st ++ [OpNextBatch; OpFlatten; OpZeroGrad;
                       OpForward (ts_training st); OpLoss; OpBackward;
                       OpStep; OpAccumulate]
     /\ ts_grads st'
        = backward (ts_training st) (ts_model st)
            (mkTensor [b; numel rest] (data images)) labels
            (zero_grad (ts_grads st))
     /\ ts_model st' = optimizer_step (ts_model st) (ts_grads st')
     /\ running_loss st' = (running_loss st + loss)%R)
  /\ (forall batches st0 st1,
        run_batches st0 batches = Ok st1 ->
        trace st1
        = trace st0 ++ concat (replicate (length batches)
                                 (step_ops (ts_training st0)))).
Proof.
  intros Hs Hb Ho Hl. split.
  - exists (after_step M G zero_grad backward optimizer_step st
              (mkTensor [b; numel rest] (data images)) labels loss).
    split; [|done].
    apply (train_step_run st (images, labels) _ out loss); [|done..].
    by apply view_flatten_ok.
  - intros batches st0 st1 H. by apply train_batches_trace in H as (? & _).
Qed.

(** ** Validation *)

Local Abbreviation run_validation := (validation M G forward criterion).
Local Abbreviation validate_step :=
  (train_validate_step M G forward criterion zero_grad backward optimizer_step).

(** The samples of a validation set are those of its batches, one after the
    other, and there are as many as labels. *)
Lemma validation_samples_cons (batch : Tensor R * list nat)
    (batches : list (Tensor R * list nat)) (r : R * list (list R))
    (rs : list (R * list (list R))) :
  length r.2 = length batch.2 ->
  validation_samples (batch :: batches) (r :: rs)
  = zip r.2 batch.2 ++ validation_samples batches rs.
Proof.
  intros Hlen. unfold validation_samples. cbn [fmap list_fmap concat].
  by rewrite zip_with_app.
Qed.



(** The validation of batches that the framework scores returns: it leaves
    the state as it is but for the trace, and returns the losses of the
    batches and, batch by batch, the numbers of the samples whose label is
    the arg-max prediction. *)
Lemma validation_run st (batches : list (Tensor R * list nat))
    (rs : list (R * list (list R))) :
  Forall2 (scored M forward criterion (ts_training st) (ts_model st))
    batches rs ->
  exists scores,
    run_validation st batches
    = Ok (mkTrainState (ts_model st) (ts_grads st) (ts_training st)
            (running_loss st) (steps st) (printed st) (reports st)
            (trace st ++ concat (replicate (length batches)
                                   (validation_ops (ts_training st)))),
          scores)
    /\ scores.*1 = rs.*1
    /\ sum_list scores.*2
       = length (correct_samples (validation_samples batches rs)).
Proof.
  destruct st as [m g mode rl n ps rps tr].
  cbn [ts_model ts_grads ts_training running_loss steps printed reports trace].
  intros HF. revert tr.
  induction HF
    as [|batch r batches rs (flat & out & Hf & Ho & Hl & Hr & Hlen & Hne) _ IH];
    intros tr.
  - exists []. simpl. by rewrite app_nil_r.
  - destruct (IH (((tr ++ [OpFlatten]) ++ [OpForward mode]) ++ [OpLoss]))
      as (scores & Hrun & H1 & H2).
    exists ((r.1, length (correct_samples (zip r.2 batch.2))) :: scores).
    split; [|split].
    + cbn [validation]. unfold validation_batch. rewrite Hf.
      unfold_state_updates. cbn [rbind]. rewrite Ho. cbn [rbind].
      rewrite Hl. cbn [rbind].
      rewrite (correct_count_run out batch.2 r.2 Hr Hlen Hne).
      cbn [rbind fst snd]. rewrite Hrun.
      cbn [rbind fst snd length replicate concat]. unfold_state_updates.
      by rewrite <- !app_assoc.
    + cbn [fmap list_fmap fst]. by rewrite <- H1.
    + rewrite validation_samples_cons by done. unfold correct_samples.
      rewrite filter_app, length_app. cbn [fmap list_fmap snd sum_list].
      unfold correct_samples in H2. by rewrite <- H2.
Qed.

Lemma validation_inv st (batches : list (Tensor R * list nat)) r :
  run_validation st batches = Ok r ->
  exists rs,
    Forall2 (scored M forward criterion (ts_training st) (ts_model st))
      batches rs.
Proof.
  destruct st as [m g mode rl n ps rps tr].
  cbn [ts_model ts_training]. revert tr r.
  induction batches as [|batch batches IH]; intros tr r.
  - simpl. intros _. exists []. constructor.
  - cbn [validation]. unfold validation_batch.
    destruct (flatten batch.1) as [flat|] eqn:Hf; [|done].
    unfold_state_updates. cbn [rbind].
    destruct (forward mode m flat) as [out|] eqn:Ho; [|done]. cbn [rbind].
    destruct (criterion out batch.2) as [loss|] eqn:Hl; [|done]. cbn [rbind].
    destruct (correct_count out batch.2) as [correct|] eqn:Hc; [|done].
    cbn [rbind fst snd].
    destruct (validation M G forward criterion _ batches) as [rs0|] eqn:Hv;
      [|done].
    intros _. apply IH in Hv as [rs HF].
    apply correct_count_inv in Hc as (rows & Hr & Hlen & Hne).
    exists ((loss, rows) :: rs). constructor; [|done].
    by exists flat, out.
Qed.

Lemma train_validate_step_inv validation_interval
    (validation_batches : list (Tensor R * list nat)) st batch st' :
  validate_step validation_interval validation_batches st batch = Ok st' ->
  steps st' = S (steps st)
  /\ length (reports st')
     = length (reports st)
       + (if bool_decide (S (steps st) `mod` validation_interval = 0)
          then 1 else 0)
  /\ (ts_training st = true -> ts_training st' = true).
Proof.
  unfold train_validate_step.
  destruct (step (set_steps M G (S (steps st)) st) batch) as [st1|] eqn:H1;
    [|done].
  cbn [rbind].
  apply train_step_inv in H1 as (flat & out & loss & _ & _ & _ & ->).
  unfold validate_if_due. destruct st as [m g mode rl n ps rps tr].
  unfold_state_updates. case_bool_decide as Hzero; [done|].
  case_bool_decide as Hdue.
  - destruct (validation M G forward criterion _ validation_batches)
      as [r|] eqn:Hv; [|done].
    destruct (validation_inv _ _ _ Hv) as [rs HF].
    destruct (validation_run _ _ _ HF) as (scores & Hrun & _).
    rewrite Hrun in Hv. injection Hv as <-.
    cbn [rbind fst snd]. case_bool_decide as Hempty; [done|].
    unfold_state_updates. intros [= <-].
    cbn [steps reports ts_training]. rewrite length_app. simpl.
    repeat split; lia.
  - intros [= <-]. cbn [steps reports ts_training].
    repeat split; [lia | done].
Qed.

Lemma div_succ (s k : nat) :
  0 < k ->
  S s `div` k = s `div` k + (if bool_decide (S s `mod` k = 0) then 1 else 0).
Proof.
  intros Hk.
  pose proof (Nat.div_mod_eq s k) as Hs.
  pose proof (Nat.div_mod_eq (S s) k) as HS.
  pose proof (Nat.mod_upper_bound s k ltac:(lia)) as Hb.
  pose proof (Nat.mod_upper_bound (S s) k ltac:(lia)) as HB.
  case_bool_decide as Hdue; nia.
Qed.

(** A run over [n] batches from step count [s] reports once per multiple of
    the interval among s+1, ..., s+n, and stays in training mode. *)
Lemma train_validate_batches_reports validation_interval
    (validation_batches batches : list (Tensor R * list nat)) st st' :
  0 < validation_interval ->
  train_validate_batches M G forward criterion zero_grad backward
    optimizer_step validation_interval validation_batches st batches = Ok st' ->
  steps st' = steps st + length batches
  /\ length (reports st') + steps st `div` validation_interval
     = length (reports st)
       + (steps st + length batches) `div` validation_interval
  /\ (ts_training st = true -> ts_training st' = true).
Proof.
  intros Hk. revert st. induction batches as [|batch batches IH]; intros st.
  - simpl. intros [= <-]. rewrite !Nat.add_0_r.
    repeat split; first [lia | done].
  - cbn [train_validate_batches].
    destruct (validate_step validation_interval validation_batches st batch)
      as [st1|] eqn:H1; [|done].
    cbn [rbind]. intros H2.
    apply train_validate_step_inv in H1 as (Hs1 & Hr1 & Ht1).
    apply IH in H2 as (Hs2 & Hr2 & Ht2).
    rewrite Hs1 in Hs2, Hr2. rewrite Hr1 in Hr2.
    pose proof (div_succ (steps st) validation_interval Hk) as Hd.
    cbn [length]. replace (steps st + S (length batches))
      with (S (steps st) + length batches) by lia.
    repeat split; [lia | lia | auto].
Qed.

(** The whole run: with [b] batches per epoch it makes epochs * b steps,
    reports once per multiple of the interval, and ends in training mode. *)
Lemma train_reports epochs e validation_interval trainloader
    (validation_batches : list (Tensor R * list nat)) b st st' :
  0 < validation_interval ->
  (forall e', length (trainloader e') = b) ->
  train M G forward criterion zero_grad backward optimizer_step epochs e
    validation_interval trainloader validation_batches st = Ok st' ->
  steps st' = steps st + epochs * b
  /\ length (reports st') + steps st `div` validation_interval
     = length (reports st)
       + (steps st + epochs * b) `div` validation_interval
  /\ (0 < epochs -> ts_training st' = true).
Proof.
  intros Hk Hb. revert e st.
  induction epochs as [|epochs IH]; intros e st.
  - simpl. intros [= <-]. rewrite !Nat.add_0_r.
    repeat split; first [lia | done].
  - cbn [train].
    destruct (train_validate_batches M G forward criterion zero_grad backward
                optimizer_step validation_interval validation_batches
                (log M G OpTrainMode (set_training M G true st))
                (trainloader e)) as [st1|] eqn:H1; [|done].
    cbn [rbind]. intros H2.
    apply train_validate_batches_reports in H1 as (Hs1 & Hr1 & Ht1); [|done].
    rewrite Hb in Hs1, Hr1.
    replace (steps (log M G OpTrainMode (set_training M G true st)))
      with (steps st) in Hs1, Hr1 by (by destruct st).
    replace (reports (log M G OpTrainMode (set_training M G true st)))
      with (reports st) in Hr1 by (by destruct st).
    specialize (Ht1 ltac:(by destruct st)).
    pose proof H2 as H2'. apply IH in H2 as (Hs2 & Hr2 & Ht2).
    rewrite Hs1 in Hs2, Hr2.
    replace (steps st + S epochs * b) with (steps st + b + epochs * b) by lia.
    repeat split; [lia | lia |].
    intros _. destruct epochs as [|epochs']; [|apply Ht2; lia].
    simpl in H2'. by injection H2' as <-.
Qed.

(** Two epochs of 938 batches with an interval of 40 steps give 46 reports,
    the number of report lines under the notebook's call of the run. *)
Example notebook_report_count trainloader
    (validation_batches : list (Tensor R * list nat)) m g st' :
  (forall e, length (trainloader e) = 938) ->
  train M G forward criterion zero_grad backward optimizer_step 2 0 40
    trainloader validation_batches
    (mkTrainState m g true 0%R 0 [] [] []) = Ok st' ->
  length (reports st') = 46 /\ ts_training st' = true.
Proof.
  intros Hb H.
  apply (train_reports 2 0 40 trainloader validation_batches 938) in H
    as (_ & Hr & Ht); [|lia|done].
  cbn [steps reports length] in Hr. split; [|apply Ht; lia].
  change (0 `div` 40) with 0 in Hr.
  replace ((0 + 2 * 938) `div` 40) with 46 in Hr by (by vm_compute).
  lia.
Qed.


End TrainingClaims.

(** * The mode of a reloaded model *)

Lemma dropout_half (mask : list bool) (x : list R) :
  dropout true (1 # 2) mask x
  = zip_with (fun (keep : bool) v => if keep then (2 * v)%R else 0%R) mask x.
Proof.
  unfold dropout. apply zip_with_ext; [|done..].
  intros [] v; [|done]. unfold Q2R. simpl. field.
Qed.

(** C10. Every model returned by load_checkpoint is in training mode and
    carries a dropout layer of probability 1/2: load_checkpoint never calls
    the switch to evaluation mode. A forward pass on the returned model
    therefore drops the hidden values its masks select and doubles the
    others; the dropout is the identity only once the caller has switched
    the model to evaluation mode. *)
Theorem load_checkpoint_training_mode (init : string -> nat -> R)
    (fs : gmap string (gmap string (PyVal R))) (path : string) (m : Model R) :
  load_checkpoint init fs path = Ok m ->
  training m = true
  /\ dropout_p m = 1 # 2
  /\ (forall mask x,
        dropout (training m) (dropout_p m) mask x
        = zip_with (fun (keep : bool) v => if keep then (2 * v)%R else 0%R)
            mask x)
  /\ (forall masks x,
        network_forward m masks x
        = (h <- hidden_forward true (1 # 2) (hidden_layers m) masks x ;;
           o <- linear_apply (output m) h ;;
           Ok (log_softmax o)))
  /\ (forall mask x,
        dropout (training (eval_mode m)) (dropout_p (eval_mode m)) mask x = x).
Proof.
  intros (ck & i & o & hs & sd & _ & _ & _ & _ & _ & Hl)%load_checkpoint_inv.
  destruct (load_state_dict_mode (Network init i o hs) sd) as [Ht Hp].
  rewrite Hl in Ht, Hp. simpl in Ht, Hp.
  split; [done|]. split; [done|]. split; [|split].
  - intros mask x. rewrite Ht, Hp. apply dropout_half.
  - intros masks x. unfold network_forward. by rewrite Ht, Hp.
  - done.
Qed.

(** * The claims on concrete runs *)

Lemma model_output_log_probabilities_witness :
  exists logits out,
    sequential (notebook_logits (new_linear real_init "0" 784 128)
                  (new_linear real_init "2" 128 64)
                  (new_linear real_init "4" 64 10))
      [replicate 784 0%R] = Ok logits
    /\ sequential (notebook_model (new_linear real_init "0" 784 128)
                     (new_linear real_init "2" 128 64)
                     (new_linear real_init "4" 64 10))
         [replicate 784 0%R] = Ok out
    /\ Forall (fun row => length row = 10 /\ rsum (map exp row) = 1%R) out.
Proof.
  destruct (model_output_log_probabilities
              (new_linear real_init "0" 784 128)
              (new_linear real_init "2" 128 64)
              (new_linear real_init "4" 64 10)
              [replicate 784 0%R] [3])
    as (_ & logits & out & H1 & H2 & _ & _ & H3 & _).
  - reflexivity.
  - repeat constructor.
  - reflexivity.
  - repeat constructor.
  - exists logits, out. by repeat split.
Defined.

Lemma train_step_operations_witness :
  exists st',
    train_step nat nat toy_forward toy_criterion toy_zero_grad toy_backward
      toy_optimizer_step toy_state (toy_images, toy_labels) = Ok st'
    /\ trace st'
       = [OpNextBatch; OpFlatten; OpZeroGrad; OpForward true; OpLoss;
          OpBackward; OpStep; OpAccumulate]
    /\ ts_grads st' = 1
    /\ ts_model st' = 1.
Proof.
  destruct (train_step_operations nat nat toy_forward toy_criterion
              toy_zero_grad toy_backward toy_optimizer_step toy_state
              toy_images toy_labels 2 [1; 2; 2]
              (mkTensor [2; 4] (replicate 8 0%R)) 1%R)
    as ((st' & H1 & H2 & H3 & H4 & _) & _).
  - reflexivity.
  - lia.
  - reflexivity.
  - reflexivity.
  - exists st'. split; [exact H1|]. split; [exact H2|]. split; [exact H3|].
    rewrite H4, H3. reflexivity.
Defined.



Lemma load_checkpoint_training_mode_witness :
  exists m,
    load_checkpoint real_init
      (torch_save (checkpoint (Network real_init 784 10 [2]))
         "checkpoint.pth" ∅) "checkpoint.pth" = Ok m
    /\ training m = true
    /\ dropout_p m = 1 # 2.
Proof.
  exists (Network real_init 784 10 [2]).
  assert (load_checkpoint real_init
            (torch_save (checkpoint (Network real_init 784 10 [2]))
               "checkpoint.pth" ∅) "checkpoint.pth"
          = Ok (Network real_init 784 10 [2])) as H by reflexivity.
  split; [exact H|].
  destruct (load_checkpoint_training_mode real_init _ _ _ H) as (H1 & H2 & _).
  split; [exact H1 | exact H2].
Defined.

(** * Further properties of the checkpoint code *)

Section CheckpointExtras.
Context {A : Type}.
Implicit Types (m : Model A) (l : Linear A) (ls : list (Linear A)).
Implicit Types (sd : gmap string (Tensor A)) (t : Tensor A).
Implicit Types (ck : gmap string (PyVal A)).
Implicit Types (fs : gmap string (gmap string (PyVal A))).

Lemma same_shape_refl ls : Forall2 same_shape ls ls.
Proof. induction ls; constructor; [by repeat split | done]. Qed.

(** X1. Loading into a model the state dict taken from that same model
    raises nothing and leaves every parameter, and the whole model, as it
    was: the notebook's "All keys matched successfully". This holds for any
    model, whatever the shapes of its parameters. *)
Theorem load_own_state_dict m :
  load_state_dict m (state_dict m) = (m, Ok tt).
Proof.
  unfold load_state_dict.
  rewrite (load_hidden_copy _ 0 _ (hidden_layers m)).
  2:{ apply same_shape_refl. }
  2:{ intros j l' Hj. split;
        [by apply state_dict_hidden_weight | by apply state_dict_hidden_bias]. }
  rewrite (load_linear_copy _ _ _ (output m));
    [|apply state_dict_output_weight|apply state_dict_output_bias|done..].
  rewrite unexpected_keys_nil; [by destruct m|].
  intros name. apply state_dict_keys.
Qed.

Lemma hidden_parameters_NoDup ls k : NoDup (hidden_parameters k ls).*1.
Proof.
  revert k. induction ls as [|l ls IH]; intros k; simpl; [constructor|].
  apply NoDup_cons. split.
  - rewrite elem_of_cons, hidden_parameters_names.
    intros [E|(j & _ & [E|E])].
    + by apply weight_bias_distinct in E.
    + apply weight_name_inj, hidden_prefix_inj in E. lia.
    + by apply weight_bias_distinct in E.
  - apply NoDup_cons. split; [|apply IH].
    rewrite hidden_parameters_names. intros (j & _ & [E|E]).
    + symmetry in E. by apply weight_bias_distinct in E.
    + apply bias_name_inj, hidden_prefix_inj in E. lia.
Qed.

Lemma parameter_names_NoDup m : NoDup (parameter_names m).
Proof.
  unfold parameter_names, named_parameters. rewrite fmap_app.
  apply NoDup_app. split; [apply hidden_parameters_NoDup|]. split.
  - intros name Hh. simpl. rewrite !elem_of_cons, elem_of_nil.
    destruct (output_name_not_hidden (hidden_layers m) 0) as [Hw Hb].
    intros [->|[->|[]]]; [by apply Hw | by apply Hb].
  - simpl. apply NoDup_cons. split.
    + rewrite elem_of_cons, elem_of_nil. intros [E|[]].
      by apply weight_bias_distinct in E.
    + apply NoDup_singleton.
Qed.

Lemma hidden_parameters_length ls k :
  length (hidden_parameters k ls) = 2 * length ls.
Proof.
  revert k. induction ls as [|l ls IH]; intros k; simpl; [done|].
  rewrite IH. lia.
Qed.

(** X2. The state dict of a model with n hidden layers has exactly
    2 * (n + 1) entries, no two parameters share a name, and a name maps to
    a tensor in the state dict exactly when the model has that parameter
    under that name: nothing is lost or merged by taking the state dict. *)
Theorem state_dict_complete m :
  NoDup (parameter_names m)
  /\ length (parameter_names m) = 2 * S (length (hidden_layers m))
  /\ size (state_dict m) = 2 * S (length (hidden_layers m))
  /\ (forall name t,
        state_dict m !! name = Some t <-> (name, t) ∈ named_parameters m).
Proof.
  pose proof (parameter_names_NoDup m) as Hnd.
  assert (length (named_parameters m) = 2 * S (length (hidden_layers m)))
    as Hlen.
  { unfold named_parameters. rewrite length_app, hidden_parameters_length.
    simpl. lia. }
  split; [done|]. split; [|split].
  - unfold parameter_names. by rewrite length_fmap.
  - unfold state_dict. rewrite <- length_map_to_list.
    rewrite (Permutation_length (map_to_list_to_map _ Hnd)). done.
  - intros name t. unfold state_dict. symmetry.
    by apply elem_of_list_to_map.
Qed.

(** ** The reloaded model does not depend on the initial parameters *)

Lemma load_param_same_shape sd name t1 t2 :
  shape t1 = shape t2 ->
  (load_param sd name t1).2 = (load_param sd name t2).2
  /\ ((load_param sd name t1).2 = [] ->
      (load_param sd name t1).1 = (load_param sd name t2).1).
Proof.
  intros Hs. unfold load_param. destruct (sd !! name) as [t'|]; [|done].
  rewrite <- Hs. by case_bool_decide.
Qed.

Lemma load_linear_same_shape sd prefix l1 l2 :
  same_shapes l1 l2 ->
  (load_linear sd prefix l1).2 = (load_linear sd prefix l2).2
  /\ ((load_linear sd prefix l1).2 = [] ->
      (load_linear sd prefix l1).1 = (load_linear sd prefix l2).1).
Proof.
  intros ([= Hi Ho] & Hw & Hb). unfold load_linear.
  destruct (load_param_same_shape sd (weight_name prefix) _ _ Hw) as [Ew Ew'].
  destruct (load_param_same_shape sd (bias_name prefix) _ _ Hb) as [Eb Eb'].
  destruct (load_param sd (weight_name prefix) (weight l1)) as [w1 ew1].
  destruct (load_param sd (weight_name prefix) (weight l2)) as [w2 ew2].
  destruct (load_param sd (bias_name prefix) (bias l1)) as [b1 eb1].
  destruct (load_param sd (bias_name prefix) (bias l2)) as [b2 eb2].
  simpl in *. subst ew2 eb2. split; [done|].
  intros [-> ->]%app_eq_nil. by rewrite Ew', Eb', Hi, Ho.
Qed.

Lemma load_hidden_same_shape sd k ls1 ls2 :
  Forall2 same_shapes ls1 ls2 ->
  (load_hidden sd k ls1).2 = (load_hidden sd k ls2).2
  /\ ((load_hidden sd k ls1).2 = [] ->
      (load_hidden sd k ls1).1 = (load_hidden sd k ls2).1).
Proof.
  intros HF. revert k. induction HF as [|l1 l2 ls1 ls2 Hl _ IH]; intros k;
    simpl; [done|].
  destruct (load_linear_same_shape sd (hidden_prefix k) _ _ Hl) as [El El'].
  destruct (IH (S k)) as [Eh Eh'].
  destruct (load_linear sd (hidden_prefix k) l1) as [r1 e1].
  destruct (load_linear sd (hidden_prefix k) l2) as [r2 e2].
  destruct (load_hidden sd (S k) ls1) as [rs1 es1].
  destruct (load_hidden sd (S k) ls2) as [rs2 es2].
  simpl in *. subst e2 es2. split; [done|].
  intros [-> ->]%app_eq_nil. by rewrite El', Eh'.
Qed.

Lemma new_layers_same_shapes (init1 init2 : string -> nat -> A) k dims :
  Forall2 same_shapes (new_layers init1 k dims) (new_layers init2 k dims).
Proof.
  revert k. induction dims as [|[i o] dims IH]; intros k; simpl;
    constructor; [by repeat split | apply IH].
Qed.

Lemma hidden_names_same_length ls1 ls2 k :
  length ls1 = length ls2 ->
  (hidden_parameters k ls1).*1 = (hidden_parameters k ls2).*1.
Proof.
  revert ls2 k. induction ls1 as [|l1 ls1 IH]; intros [|l2 ls2] k Hlen;
    simplify_eq/=; [done|].
  by rewrite (IH ls2 (S k)).
Qed.

Lemma load_state_dict_init_irrelevant (init1 init2 : string -> nat -> A)
    i o hs sd :
  (load_state_dict (Network init1 i o hs) sd).2
  = (load_state_dict (Network init2 i o hs) sd).2
  /\ ((load_state_dict (Network init1 i o hs) sd).2 = Ok tt ->
      (load_state_dict (Network init1 i o hs) sd).1
      = (load_state_dict (Network init2 i o hs) sd).1).
Proof.
  unfold load_state_dict.
  assert (unexpected_keys (Network init1 i o hs) sd
          = unexpected_keys (Network init2 i o hs) sd) as Hu.
  { unfold unexpected_keys, parameter_names, named_parameters. simpl.
    rewrite !fmap_app.
    rewrite (hidden_names_same_length
               (new_layers init1 0 (layer_sizes i hs))
               (new_layers init2 0 (layer_sizes i hs)) 0); [done|].
    rewrite <- !(length_map linear_dims), !new_layers_dims. done. }
  rewrite Hu. cbn [hidden_layers output dropout_p training Network].
  destruct (load_hidden_same_shape sd 0 _ _
              (new_layers_same_shapes init1 init2 0 (layer_sizes i hs)))
    as [Eh Eh'].
  assert (same_shapes (new_linear init1 "output" (List.last hs i) o)
            (new_linear init2 "output" (List.last hs i) o)) as Ho
    by (by repeat split).
  destruct (load_linear_same_shape sd "output" _ _ Ho) as [Eo Eo'].
  destruct (load_hidden sd 0 (new_layers init1 0 (layer_sizes i hs)))
    as [rs1 eh1].
  destruct (load_hidden sd 0 (new_layers init2 0 (layer_sizes i hs)))
    as [rs2 eh2].
  destruct (load_linear sd "output" (new_linear init1 "output" _ o))
    as [ro1 eo1].
  destruct (load_linear sd "output" (new_linear init2 "output" _ o))
    as [ro2 eo2].
  simpl in *. subst eh2 eo2.
  destruct (unexpected_keys (Network init2 i o hs) sd ++ eh1 ++ eo1)
    as [|x xs] eqn:Hissues; simpl; [|done].
  apply app_eq_nil in Hissues as [_ [-> ->]%app_eq_nil].
  split; [done|]. intros _. by rewrite Eh', Eo'.
Qed.

(** X3. What load_checkpoint returns does not depend on the values the
    constructor gives the parameters before the state dict is loaded: for
    any two initialisations the call returns the same model, or raises the
    same error. No parameter of a returned model keeps an initial value. *)
Theorem load_checkpoint_init_irrelevant (init1 init2 : string -> nat -> A)
    fs path :
  load_checkpoint init1 fs path = load_checkpoint init2 fs path.
Proof.
  unfold load_checkpoint. destruct (torch_load path fs) as [ck|]; [|done].
  simpl. destruct (getitem ck "input_size") as [vi|]; [|done]. simpl.
  destruct (getitem ck "output_size") as [vo|]; [|done]. simpl.
  destruct (getitem ck "hidden_layers") as [vh|]; [|done]. simpl.
  destruct (as_int "input_size" vi) as [i|]; [|done]. simpl.
  destruct (as_int "output_size" vo) as [o|]; [|done]. simpl.
  destruct (as_list "hidden_layers" vh) as [hs|]; [|done]. simpl.
  destruct (getitem ck "state_dict") as [vs|]; [|done]. simpl.
  destruct (as_state "state_dict" vs) as [sd|]; [|done]. simpl.
  destruct (load_state_dict_init_irrelevant init1 init2 i o hs sd) as [E E'].
  destruct (load_state_dict (Network init1 i o hs) sd) as [m1 r1].
  destruct (load_state_dict (Network init2 i o hs) sd) as [m2 r2].
  simpl in *. subst r2. destruct r1 as [[]|e]; [|done].
  simpl. by rewrite E'.
Qed.

(** A checkpoint file is addressed by its path alone: loading a path under
    which nothing is stored raises the missing-file error for that path;
    saving under another path does not change what a path loads; and a
    second save under the same path replaces the first. *)
Lemma checkpoint_files_by_path (init : string -> nat -> A)
    fs path path' ck ck' :
  path' <> path ->
  load_checkpoint init (delete path fs) path
  = Raise (FileNotFoundError path)
  /\ load_checkpoint init (torch_save ck' path' fs) path
     = load_checkpoint init fs path
  /\ load_checkpoint init (torch_save ck path (torch_save ck' path fs)) path
     = load_checkpoint init (torch_save ck path fs) path.
Proof.
  intros Hne. unfold load_checkpoint, torch_load, torch_save.
  rewrite lookup_delete_eq, lookup_insert_ne by done.
  by rewrite !lookup_insert_eq.
Qed.

(** X4. Saving again the model that load_checkpoint returned writes the
    very dictionary that was loaded: for every model of architecture
    (784, 10, hidden), building the dictionary from the reloaded model
    gives the dictionary built from the saved model. *)
Theorem checkpoint_reload_resave (init : string -> nat -> A) fs path hs m :
  has_arch 784 10 hs m = true ->
  exists m',
    load_checkpoint init (torch_save (checkpoint m) path fs) path = Ok m'
    /\ checkpoint m' = checkpoint m
    /\ has_arch 784 10 hs m' = true.
Proof.
  intros Hm. rewrite (load_checkpoint_of_checkpoint init fs path hs m Hm).
  eexists. split; [reflexivity|]. split; [done|].
  apply has_arch_spec. apply has_arch_spec in Hm. exact Hm.
Qed.

Lemma load_state_dict_ok_state_dict m0 sd m :
  load_state_dict m0 sd = (m, Ok tt) -> state_dict m = sd.
Proof.
  unfold load_state_dict.
  destruct (load_hidden sd 0 (hidden_layers m0)) as [rs eh] eqn:Hh.
  destruct (load_linear sd "output" (output m0)) as [ro eo] eqn:Ho.
  destruct (unexpected_keys m0 sd) as [|u us] eqn:Hu; [|done].
  destruct eh as [|e eh]; [|done]. destruct eo as [|e eo]; [|done].
  simpl. intros [= <-].
  apply load_hidden_no_issue in Hh as [HF Hsd].
  apply load_linear_no_issue in Ho as (How & Hob & _ & _).
  pose proof (Forall2_length _ _ _ HF) as Hlen.
  assert (forall name, name ∈ parameter_names m0 ->
            state_dict (mkModel rs ro (dropout_p m0) (training m0)) !! name
            = sd !! name) as Hknown.
  { intros name [(j & Hj & Hname)|Hname]%parameter_names_spec.
    - rewrite Hlen in Hj. destruct (lookup_lt_is_Some_2 rs j Hj) as [r Hr].
      destruct (Hsd j r Hr) as [Hw Hb]. simpl in Hw, Hb.
      destruct Hname as [-> | ->].
      + rewrite Hw. by apply state_dict_hidden_weight.
      + rewrite Hb. by apply state_dict_hidden_bias.
    - destruct Hname as [-> | ->].
      + rewrite How. apply state_dict_output_weight.
      + rewrite Hob. apply state_dict_output_bias. }
  apply map_eq. intros name.
  destruct (decide (name ∈ parameter_names m0)) as [Hin|Hout];
    [by apply Hknown|].
  assert (sd !! name = None) as ->.
  { apply eq_None_not_Some. intros Hs. apply Hout.
    by apply (unexpected_keys_nil_inv m0 sd name). }
  apply eq_None_not_Some. intros Hs%state_dict_keys. apply Hout.
  eapply parameter_names_length; [|exact Hs]. done.
Qed.

(** X17. Whatever load_checkpoint returns holds exactly the parameters of
    the record: when the call returns a model, the state dict of that model
    is the state dict stored in the file, name for name and tensor for
    tensor, for any record and any stored state dict. *)
Theorem load_checkpoint_returns_record (init : string -> nat -> A)
    fs path ck sd m :
  fs !! path = Some ck ->
  ck !! "state_dict"%string = Some (VState sd) ->
  load_checkpoint init fs path = Ok m ->
  state_dict m = sd.
Proof.
  intros Hf Hs (ck' & i & o & hs & sd' & Hf' & _ & _ & _ & Hs' & Hl)%load_checkpoint_inv.
  rewrite Hf in Hf'. injection Hf' as <-.
  rewrite Hs in Hs'. injection Hs' as <-.
  by apply load_state_dict_ok_state_dict in Hl.
Qed.

End CheckpointExtras.

(** * Further properties of the reshaping and batching code *)

Section ReshapeExtras.
Context {A : Type}.
Implicit Types (t images : Tensor A).

Lemma flatten_empty t :
  batch_size t = 0 ->
  flatten t = Raise (ViewError (numel (shape t)) [Some 0; None]).
Proof.
  intros Hb. unfold flatten, view. rewrite Hb. reflexivity.
Qed.

Lemma flatten_nonempty t :
  batch_size t <> 0 ->
  flatten t
  = Ok {| shape := [batch_size t; numel (tl (shape t))]; data := data t |}.
Proof.
  intros Hb. destruct (shape t) as [|b rest] eqn:Hs.
  - unfold batch_size in Hb. by rewrite Hs in Hb.
  - unfold batch_size in *. rewrite Hs in *. cbn [hd tl] in *.
    apply view_flatten_ok; [done | lia].
Qed.

(** X5. The flatten of the loop, images.view(images.shape[0], -1), returns
    exactly when the batch has at least one sample; it then keeps the
    elements and the sample count, gives every sample one row of as many
    values as it had, keeps a well-formed tensor well-formed and changes
    nothing when applied again. On a batch of no sample it raises. *)
Theorem flatten_behaviour t :
  (batch_size t <> 0 ->
     exists flat,
       flatten t = Ok flat
       /\ shape flat = [batch_size t; numel (tl (shape t))]
       /\ data flat = data t
       /\ (well_formed t -> well_formed flat)
       /\ flatten flat = Ok flat)
  /\ (batch_size t = 0 -> exists e, flatten t = Raise e).
Proof.
  split.
  - intros Hb. eexists. split; [by apply flatten_nonempty|].
    split; [done|]. split; [done|]. split.
    + unfold well_formed. cbn [shape data]. intros ->.
      unfold batch_size in *. destruct (shape t) as [|b rest]; [done|].
      cbn [hd tl numel fold_right]. fold (numel rest). lia.
    + rewrite flatten_nonempty by done. unfold batch_size.
      cbn [shape data hd tl numel fold_right]. by rewrite Nat.mul_1_r.
  - intros Hb. eexists. by apply flatten_empty.
Qed.

Lemma demo_reshape_is_flatten (junk : nat -> A) images rest :
  shape images = 64 :: rest ->
  well_formed images ->
  numel rest = 784 ->
  flatten images = Ok (demo_reshape junk images).
Proof.
  intros Hs Hwf Hrest.
  rewrite (view_flatten_ok images 64 rest Hs) by lia.
  assert (length (data images) = numel [64; 784]) as Hlen.
  { unfold well_formed in Hwf. rewrite Hwf, Hs. unfold numel.
    cbn [fold_right]. fold (numel rest). rewrite Hrest. lia. }
  unfold demo_reshape, resize_. rewrite Hrest. do 2 f_equal.
  rewrite <- Hlen, Nat.sub_diag. cbn [seq map]. rewrite app_nil_r.
  symmetry. by apply take_ge.
Qed.

(** X6. On a well-formed batch of exactly 64 samples of 784 values the
    in-place resize of the single-step cell and the flatten of the loop
    return the same tensor: the two cells differ only on batches of
    another size. *)
Theorem demo_reshape_full_batch (junk : nat -> A) images rest :
  shape images = 64 :: rest ->
  well_formed images ->
  numel rest = 784 ->
  flatten images = Ok (demo_reshape junk images).
Proof. apply demo_reshape_is_flatten. Qed.

Lemma select_in_range t b rest i :
  shape t = b :: rest -> i < b ->
  select t i
  = Ok {| shape := rest;
          data := take (numel rest) (drop (i * numel rest) (data t)) |}.
Proof.
  intros Hs Hi. unfold select. rewrite Hs.
  by rewrite bool_decide_eq_true_2.
Qed.

Lemma select_out_of_range t b rest i :
  shape t = b :: rest -> b <= i -> select t i = Raise (IndexError i b).
Proof.
  intros Hs Hi. unfold select. rewrite Hs.
  rewrite bool_decide_eq_false_2; [done | lia].
Qed.

Lemma prediction_input_in_range images b :
  shape images = [b; 1; 28; 28] -> well_formed images -> 63 < b ->
  prediction_input images
  = Ok {| shape := [1; 784];
          data := take 784 (drop (63 * 784) (data images)) |}.
Proof.
  intros Hs Hwf Hb. unfold prediction_input.
  rewrite (select_in_range images b [1; 28; 28] 63 Hs Hb).
  change (numel [1; 28; 28]) with 784. cbn [rbind]. unfold view.
  cbn [inferred_count filter length known_size fold_right shape data].
  change (numel [1; 28; 28]) with 784.
  change (1 * (784 * 1)) with 784.
  rewrite bool_decide_eq_true_2 by reflexivity. reflexivity.
Qed.

(** X7. The prediction cell takes images[63]: on a well-formed batch of b
    images of 1 x 28 x 28 values it raises the index error when b is 63 or
    less, and otherwise returns the 784 values of the 64th image as one
    row, which the plot's view(1, 28, 28) turns back into the shape of an
    image with the same values. *)
Theorem prediction_input_behaviour images b :
  shape images = [b; 1; 28; 28] ->
  well_formed images ->
  (b <= 63 -> prediction_input images = Raise (IndexError 63 b))
  /\ (63 < b ->
        exists img p,
          prediction_input images = Ok img
          /\ shape img = [1; 784]
          /\ data img = take 784 (drop (63 * 784) (data images))
          /\ length (data img) = 784
          /\ plotted_image img = Ok p
          /\ shape p = [1; 28; 28]
          /\ data p = data img).
Proof.
  intros Hs Hwf. split.
  - intros Hb. unfold prediction_input.
    by rewrite (select_out_of_range images b [1; 28; 28] 63 Hs Hb).
  - intros Hb.
    exists {| shape := [1; 784];
              data := take 784 (drop (63 * 784) (data images)) |}.
    exists {| shape := [1; 28; 28];
              data := take 784 (drop (63 * 784) (data images)) |}.
    split; [by apply (prediction_input_in_range images b)|].
    split; [reflexivity|]. split; [reflexivity|]. split.
    + cbn [data]. rewrite length_take, length_drop.
      unfold well_formed in Hwf. rewrite Hwf, Hs. unfold numel.
      cbn [fold_right]. lia.
    + split; [|split; reflexivity].
      unfold plotted_image, view.
      cbn [inferred_count filter length known_size fold_right shape data].
      rewrite bool_decide_eq_true_2 by reflexivity. reflexivity.
Qed.

(** ** The batches of an epoch *)


Lemma chunks_lookup {T : Type} n w (l : list T) i :
  i < n -> chunks n w l !! i = Some (take w (drop (i * w) l)).
Proof.
  revert l i. induction n as [|n IH]; intros l [|i] Hi; try lia.
  - done.
  - cbn [chunks lookup list_lookup]. rewrite IH by lia.
    rewrite drop_drop. do 3 f_equal.
Qed.


Lemma num_batches_bounds n w :
  0 < w ->
  n <= num_batches n w * w
  /\ (0 < num_batches n w -> (num_batches n w - 1) * w < n).
Proof.
  intros Hw. unfold num_batches.
  pose proof (Nat.div_mod_eq (n + w - 1) w) as Hd.
  pose proof (Nat.mod_upper_bound (n + w - 1) w ltac:(lia)) as Hm.
  split; [nia|]. intros Hpos. nia.
Qed.



Lemma collate_well_formed (samples : list (Tensor A * nat)) sh :
  samples <> [] ->
  Forall (fun s => shape s.1 = sh /\ well_formed s.1) samples ->
  shape (collate samples).1 = length samples :: sh
  /\ well_formed (collate samples).1.
Proof.
  intros Hne HF.
  assert (shape (collate samples).1 = length samples :: sh) as Hs.
  { destruct samples as [|s samples]; [done|].
    apply Forall_cons in HF as [[Hsh _] _]. cbn. by rewrite Hsh. }
  split; [done|]. unfold well_formed. rewrite Hs. clear Hs Hne.
  unfold numel. cbn [fold_right]. fold (numel sh). cbn [collate fst data].
  induction HF as [|s samples [Hsh Hwf] _ IH]; [done|].
  cbn [fmap list_fmap map concat length]. rewrite length_app, IH.
  unfold well_formed in Hwf. rewrite Hwf, Hsh. lia.
Qed.

(** X9. next(iter(trainloader)): when the data set holds at least 64
    well-formed images of 1 x 28 x 28 values, the first batch of a loader
    of batch size 64 is a well-formed tensor of shape 64 x 1 x 28 x 28
    with 64 labels; on it the resize of the single-step cell equals the
    flatten of the loop, and images[63] of the prediction cell exists. *)
Theorem first_batch_is_full (junk : nat -> A)
    (order : list (Tensor A * nat)) :
  64 <= length order ->
  Forall (fun s => shape s.1 = [1; 28; 28] /\ well_formed s.1) order ->
  exists batch,
    DataLoader order 64 !! 0 = Some batch
    /\ shape batch.1 = [64; 1; 28; 28]
    /\ well_formed batch.1
    /\ length batch.2 = 64
    /\ flatten batch.1 = Ok (demo_reshape junk batch.1)
    /\ exists img, prediction_input batch.1 = Ok img.
Proof.
  intros Hlen HF. unfold DataLoader.
  destruct (num_batches_bounds (length order) 64 ltac:(lia)) as [Hup _].
  assert (0 < num_batches (length order) 64) as Hpos by nia.
  exists (collate (take 64 order)).
  assert (length (take 64 order) = 64) as Htake
    by (rewrite length_take; lia).
  destruct (collate_well_formed (take 64 order) [1; 28; 28]) as [Hs Hwf].
  { intros E. rewrite E in Htake. discriminate Htake. }
  { by apply Forall_take. }
  rewrite Htake in Hs.
  split.
  { rewrite list_lookup_fmap, chunks_lookup by done. reflexivity. }
  split; [exact Hs|]. split; [exact Hwf|]. split.
  { cbn [collate snd]. by rewrite length_fmap. }
  split.
  { apply (demo_reshape_is_flatten junk _ [1; 28; 28]);
      [exact Hs | exact Hwf | reflexivity]. }
  eexists. apply (prediction_input_in_range _ 64); [exact Hs | exact Hwf | lia].
Qed.

End ReshapeExtras.

(** * Further properties of the model output and the losses *)

Lemma rsum_exp_nonneg (x : list R) : (0 <= rsum (map exp x))%R.
Proof.
  induction x as [|v x IH]; simpl; [lra|]. pose proof (exp_pos v). lra.
Qed.

Lemma exp_le_rsum (x : list R) (v : R) :
  v ∈ x -> (exp v <= rsum (map exp x))%R.
Proof.
  induction 1 as [v x|v w x _ IH]; simpl.
  - pose proof (rsum_exp_nonneg x). lra.
  - pose proof (exp_pos w). lra.
Qed.

Lemma softmax_entry_bounds (x : list R) (p : R) :
  p ∈ softmax x -> (0 < p <= 1)%R.
Proof.
  unfold softmax. intros (v & -> & Hv)%list_elem_of_fmap.
  assert (x <> []) as Hx by (intros ->; by apply elem_of_nil in Hv).
  pose proof (rsum_exp_pos x Hx) as Hpos.
  pose proof (exp_le_rsum x v Hv) as Hle.
  pose proof (exp_pos v) as Hv0.
  split; [by apply Rdiv_lt_0_compat|].
  apply (Rmult_le_reg_r (rsum (map exp x))); [done|].
  unfold Rdiv. rewrite Rmult_assoc, Rinv_l by lra. lra.
Qed.

Lemma log_softmax_entry_nonpos (x : list R) (v : R) :
  v ∈ log_softmax x -> (v <= 0)%R.
Proof.
  unfold log_softmax. intros (w & -> & Hw)%list_elem_of_fmap.
  assert (x <> []) as Hx by (intros ->; by apply elem_of_nil in Hw).
  pose proof (exp_le_rsum x w Hw) as [Hlt|Heq].
  - pose proof (ln_increasing _ _ (exp_pos w) Hlt) as Hln.
    rewrite ln_exp in Hln. lra.
  - rewrite <- Heq, ln_exp. lra.
Qed.

Lemma probabilities_log_softmax (x : list R) :
  x <> [] -> probabilities (log_softmax x) = softmax x.
Proof.
  intros Hx. pose proof (rsum_exp_pos x Hx) as Hpos.
  unfold probabilities, log_softmax, softmax. rewrite map_map.
  apply map_ext. intros v.
  unfold Rminus, Rdiv. by rewrite exp_plus, exp_Ropp, exp_ln.
Qed.

(** X10. The prediction cell: for every value of the parameters and every
    image of 784 values, the exponentials of the output of the model are
    the ten softmax probabilities of the logits of the image; each lies
    above 0 and at most at 1, and they sum to 1. *)
Theorem prediction_probabilities (l1 l2 l3 : Linear R) (img : list R) :
  map linear_dims [l1; l2; l3] = sequential_dims ->
  length img = 784 ->
  exists z logps,
    sequential (notebook_logits l1 l2 l3) [img] = Ok [z]
    /\ sequential (notebook_model l1 l2 l3) [img] = Ok [logps]
    /\ probabilities logps = softmax z
    /\ length (probabilities logps) = 10
    /\ Forall (fun p => (0 < p <= 1)%R) (probabilities logps)
    /\ rsum (probabilities logps) = 1%R.
Proof.
  intros Hdims Himg.
  destruct (notebook_logits_ok l1 l2 l3 [img] Hdims) as (logits & Hl & Hn & HF).
  { by repeat constructor. }
  destruct logits as [|z [|z' logits]]; simpl in Hn; try lia.
  apply Forall_cons in HF as [HF _].
  assert (z <> []) as Hz by (intros ->; simpl in HF; lia).
  exists z, (log_softmax z). split; [done|]. split.
  { change (notebook_model l1 l2 l3)
      with (notebook_logits l1 l2 l3 ++ [nnLogSoftmax 1]).
    by rewrite sequential_app, Hl. }
  rewrite (probabilities_log_softmax z Hz).
  split; [done|]. split; [by unfold softmax; rewrite length_map|]. split.
  - apply Forall_forall. intros p Hp. by apply softmax_entry_bounds in Hp.
  - by apply softmax_sums_to_one.
Qed.

Lemma cross_entropy_picks (logits : list (list R)) (labels : list nat) :
  result_map cross_entropy_pick (zip logits labels)
  = result_map nll_pick (zip (map log_softmax logits) labels).
Proof.
  revert labels. induction logits as [|z logits IH]; intros [|y labels];
    try done.
  cbn [map zip zip_with result_map]. rewrite IH.
  assert (cross_entropy_pick (z, y) = nll_pick (log_softmax z, y)) as ->;
    [|done].
  unfold cross_entropy_pick, nll_pick. cbn [fst snd].
  rewrite log_softmax_length. unfold log_softmax at 1.
  rewrite list_lookup_fmap. destruct (z !! y) as [v|]; [|done].
  cbn [fmap option_fmap option_map]. f_equal. lra.
Qed.

(** X11. The two loss cells compute the same thing: for all scores and
    labels, the cross-entropy loss of the scores equals the negative
    log-likelihood loss of their log-softmax, and the two raise the same
    error when the labels do not fit the scores. *)
Theorem cross_entropy_is_nll_of_log_softmax (logits : list (list R))
    (labels : list nat) :
  cross_entropy_loss logits labels
  = nll_loss (map log_softmax logits) labels.
Proof.
  unfold cross_entropy_loss, nll_loss. rewrite length_map.
  by rewrite cross_entropy_picks.
Qed.

Lemma result_map_linear_raise (l : Linear R) (batch : list (list R)) :
  ~ Forall (fun row => length row = in_features l) batch ->
  exists row, row ∈ batch /\ length row <> in_features l
    /\ result_map (linear_apply l) batch
       = Raise (ShapeError (in_features l) (length row)).
Proof.
  induction batch as [|row batch IH]; intros Hn.
  - exfalso. apply Hn. constructor.
  - destruct (decide (length row = in_features l)) as [Hrow|Hrow].
    + destruct IH as (r & Hr & Hlen & Hraise).
      { intros HF. apply Hn. by constructor. }
      exists r. split; [by right|]. split; [done|].
      cbn [result_map]. destruct (linear_apply_ok l row Hrow) as (y & -> & _).
      cbn [rbind]. by rewrite Hraise.
    + exists row. split; [by left|]. split; [done|].
      cbn [result_map]. unfold linear_apply.
      by rewrite bool_decide_eq_false_2.
Qed.

(** X12. The model accepts a batch exactly when every sample has 784
    values, which is what the flatten before it provides: it then returns
    one row of ten values per sample, and otherwise raises the shape error
    of the first affine map for a sample of another length. *)
Theorem model_accepts_flattened_batches (l1 l2 l3 : Linear R)
    (batch : list (list R)) :
  map linear_dims [l1; l2; l3] = sequential_dims ->
  (Forall (fun row => length row = 784) batch ->
     exists out, sequential (notebook_model l1 l2 l3) batch = Ok out
       /\ length out = length batch
       /\ Forall (fun row => length row = 10) out)
  /\ (~ Forall (fun row => length row = 784) batch ->
        exists row, row ∈ batch /\ length row <> 784
          /\ sequential (notebook_model l1 l2 l3) batch
             = Raise (ShapeError 784 (length row))).
Proof.
  intros Hdims. split.
  - intros HF.
    destruct (notebook_logits_ok l1 l2 l3 batch Hdims HF)
      as (logits & Hl & Hn & HF10).
    exists (map log_softmax logits). split.
    { change (notebook_model l1 l2 l3)
        with (notebook_logits l1 l2 l3 ++ [nnLogSoftmax 1]).
      by rewrite sequential_app, Hl. }
    split; [by rewrite length_map|].
    apply Forall_fmap. eapply Forall_impl; [exact HF10|].
    intros z Hz. simpl. by rewrite log_softmax_length.
  - intros Hn. injection Hdims as Hi1 _.
    rewrite <- Hi1 in Hn.
    destruct (result_map_linear_raise l1 batch Hn) as (row & Hr & Hlen & He).
    rewrite Hi1 in Hlen, He. exists row. split; [done|]. split; [done|].
    unfold notebook_model. cbn [sequential apply_module]. by rewrite He.
Qed.

Lemma rsum_nonneg (l : list R) :
  Forall (fun v => (0 <= v)%R) l -> (0 <= rsum l)%R.
Proof. induction 1 as [|v l Hv _ IH]; simpl; lra. Qed.

Lemma nll_terms_nonneg (logits : list (list R)) (labels : list nat) :
  Forall (fun v => (0 <= v)%R)
    (zip_with (fun row y => (- nth y row 0)%R)
       (map log_softmax logits) labels).
Proof.
  revert labels. induction logits as [|z logits IH]; intros [|y labels];
    cbn [map zip_with]; constructor; [|apply IH].
  destruct (decide (y < length (log_softmax z))) as [Hy|Hy].
  - destruct (lookup_lt_is_Some_2 _ _ Hy) as [v Hv].
    rewrite (nth_lookup_Some _ _ 0%R _ Hv).
    apply list_elem_of_lookup_2, log_softmax_entry_nonpos in Hv. lra.
  - rewrite nth_overflow by lia. lra.
Qed.

(** X13. The training loss is never negative: for every value of the
    parameters, every batch of at least one sample of 784 values and every
    list of as many labels below 10, the loss of the model's output is
    defined and is at least 0. *)
Theorem training_loss_nonnegative (l1 l2 l3 : Linear R)
    (batch : list (list R)) (labels : list nat) :
  map linear_dims [l1; l2; l3] = sequential_dims ->
  batch <> [] ->
  Forall (fun row => length row = 784) batch ->
  length labels = length batch ->
  Forall (fun y => y < 10) labels ->
  exists out loss,
    sequential (notebook_model l1 l2 l3) batch = Ok out
    /\ nll_loss out labels = Ok loss
    /\ (0 <= loss)%R.
Proof.
  intros Hdims Hne Hrows Hlen Hlab.
  destruct (notebook_logits_ok l1 l2 l3 batch Hdims Hrows)
    as (logits & Hl & Hn & HF10).
  exists (map log_softmax logits). eexists. split.
  { change (notebook_model l1 l2 l3)
      with (notebook_logits l1 l2 l3 ++ [nnLogSoftmax 1]).
    by rewrite sequential_app, Hl. }
  split.
  { apply (nll_loss_ok _ labels 10); [by rewrite length_map, Hn| |done].
    apply Forall_fmap. eapply Forall_impl; [exact HF10|].
    intros z Hz. simpl. by rewrite log_softmax_length. }
  pose proof (rsum_nonneg _ (nll_terms_nonneg logits labels)) as Hsum.
  rewrite length_map. apply Rle_mult_inv_pos; [done|]. apply lt_0_INR.
  rewrite Hn. destruct batch; [done | simpl; lia].
Qed.

(** ** The autograd cells *)

Lemma rsum_map_insert (f : R -> R) (x : list R) (i : nat) (xi t : R) :
  x !! i = Some xi ->
  rsum (map f (<[i:=t]> x)) = (rsum (map f x) - f xi + f t)%R.
Proof.
  revert i. induction x as [|v x IH]; intros [|i] Hi; simplify_eq/=.
  - lra.
  - rewrite (IH i Hi). lra.
Qed.

(** X14. The autograd cells: for z the mean of the squares of the entries
    of x, the derivative of z in the entry x_i is 2 * x_i / n for n
    entries, so x / 2 for the 2 x 2 tensor of the notebook, the value the
    cell prints beside x.grad. *)
Theorem mean_of_squares_gradient (x : list R) (i : nat) (xi : R) :
  x !! i = Some xi ->
  derivable_pt_lim (fun t => mean_of_squares (<[i:=t]> x)) xi
    (2 * xi / INR (length x))%R
  /\ (length x = 4 -> (2 * xi / INR (length x) = xi / 2)%R).
Proof.
  intros Hi. split.
  - apply (derivable_pt_lim_ext
             (fun t => ((rsum (square_all x) - xi ^ 2 + t ^ 2)
                        / INR (length x))%R)).
    + intros t. unfold mean_of_squares, mean, square_all.
      rewrite length_map, length_insert.
      by rewrite (rsum_map_insert (fun v => (v ^ 2)%R) x i xi t Hi).
    + apply derivable_pt_lim_div_scal.
      replace (2 * xi)%R with (0 + INR 2 * xi ^ pred 2)%R by (simpl; lra).
      apply (derivable_pt_lim_plus
               (fun _ => (rsum (square_all x) - xi ^ 2)%R)
               (fun t => (t ^ 2)%R)).
      * apply (derivable_pt_lim_const (rsum (square_all x) - xi ^ 2)%R).
      * apply derivable_pt_lim_pow.
  - intros ->. simpl. lra.
Qed.

(** * Further properties of the training cells *)

Section TrainingExtras.
Context (M G : Type).
Context (forward : bool -> M -> Tensor R -> result (Tensor R)).
Context (criterion : Tensor R -> list nat -> result R).
Context (zero_grad : G -> G).
Context (backward : bool -> M -> Tensor R -> list nat -> G -> G).
Context (optimizer_step : M -> G -> M).

Local Abbreviation loop_step :=
  (train_step M G forward criterion zero_grad backward optimizer_step).
Local Abbreviation loop_batches :=
  (train_batches M G forward criterion zero_grad backward optimizer_step).
Local Abbreviation loop_epochs :=
  (train_epochs M G forward criterion zero_grad backward optimizer_step).
Local Abbreviation single_step :=
  (demo_step M G forward criterion zero_grad backward optimizer_step).

Implicit Types (st : TrainState M G) (batch : Tensor R * list nat).

Lemma train_batches_losses st batches st' :
  loop_batches st batches = Ok st' ->
  exists losses,
    Forall2 (batch_loss M forward criterion) batches losses
    /\ running_loss st' = (running_loss st + rsum losses)%R.
Proof.
  revert st. induction batches as [|batch batches IH]; intros st; simpl.
  - intros [= <-]. exists []. split; [constructor | simpl; lra].
  - destruct (loop_step st batch) as [st1|] eqn:H1; [|done]. simpl.
    intros H2.
    apply train_step_inv in H1 as (flat & out & loss & Hf & Ho & Hl & ->).
    apply IH in H2 as (losses & HF & Hr). exists (loss :: losses). split.
    + constructor; [|done]. by exists (ts_training st), (ts_model st), flat, out.
    + rewrite Hr. simpl. lra.
Qed.

(** X15. The epoch loop over loaders that are not empty prints one training
    loss per epoch, after the epoch's last batch, and the loss printed for
    an epoch is the mean of the losses of the batches of that epoch alone:
    the running loss starts from 0 at every epoch. *)
Theorem train_epochs_prints_means epochs e trainloader st st' :
  (forall k, trainloader k <> []) ->
  loop_epochs epochs e trainloader st = Ok st' ->
  exists epoch_losses : list (list R),
    length epoch_losses = epochs
    /\ printed st' = printed st ++ map mean epoch_losses
    /\ (forall k losses,
          epoch_losses !! k = Some losses ->
          Forall2 (batch_loss M forward criterion) (trainloader (e + k))
            losses).
Proof.
  intros Hne. revert e st. induction epochs as [|epochs IH]; intros e st.
  - simpl. intros [= <-]. exists []. split; [done|].
    split; [by rewrite app_nil_r | by intros k losses].
  - cbn [train_epochs].
    destruct (loop_batches (set_running_loss M G 0%R st) (trainloader e))
      as [st1|] eqn:H1; [|done].
    cbn [rbind].
    rewrite bool_decide_eq_false_2
      by (specialize (Hne e); by destruct (trainloader e)).
    intros H2.
    pose proof (train_batches_trace _ _ _ _ _ _ _ _ _ _ H1)
      as (_ & _ & _ & Hp & _).
    apply train_batches_losses in H1 as (losses & HF & Hr).
    apply IH in H2 as (rest & Hlen & Hprinted & Hrest).
    exists (losses :: rest). split; [by rewrite <- Hlen|]. split.
    + rewrite Hprinted. destruct st1 as [m1 g1 t1 r1 n1 p1 rp1 tr1].
      destruct st as [m g t r n p rp tr].
      cbn [print_loss printed running_loss set_running_loss] in *.
      subst p1 r1. rewrite <- app_assoc. do 2 f_equal. cbn [map app].
      f_equal. unfold mean. rewrite (Forall2_length _ _ _ HF). f_equal. lra.
    + intros [|k] ls Hk; simplify_eq/=.
      * by rewrite Nat.add_0_r.
      * replace (e + S k) with (S e + k) by lia. by apply Hrest.
Qed.

(** X16. On a well-formed batch of exactly 64 samples of 784 values, the
    single training step of the demonstration and one pass through the
    body of the loop agree: either both raise the same error, or both
    return, with the same updated parameters and the same gradients. *)
Theorem demo_step_agrees_with_loop (junk : nat -> R) st batch rest :
  shape batch.1 = 64 :: rest ->
  well_formed batch.1 ->
  numel rest = 784 ->
  match loop_step st batch, single_step junk st batch with
  | Ok s1, Ok s2 => ts_model s1 = ts_model s2 /\ ts_grads s1 = ts_grads s2
  | Raise e1, Raise e2 => e1 = e2
  | _, _ => False
  end.
Proof.
  intros Hs Hwf Hrest. unfold train_step, demo_step.
  rewrite (demo_reshape_is_flatten junk batch.1 rest Hs Hwf Hrest).
  destruct st as [m g mode rl n ps rps tr].
  cbv [log set_grads set_model set_running_loss ts_model ts_grads
       ts_training running_loss steps printed reports trace].
  cbn [rbind].
  destruct (forward mode m (demo_reshape junk batch.1)) as [out|]; [|done].
  cbn [rbind]. destruct (criterion out batch.2) as [loss|]; [|done].
  cbn [rbind ts_model ts_grads]. done.
Qed.

End TrainingExtras.

(** * The further properties on concrete values *)

Lemma checkpoint_reload_resave_witness :
  exists m',
    load_checkpoint zero_init
      (torch_save (checkpoint trained_model) "checkpoint.pth" ∅)
      "checkpoint.pth" = Ok m'
    /\ checkpoint m' = checkpoint trained_model.
Proof.
  destruct (checkpoint_reload_resave zero_init ∅ "checkpoint.pth" [3; 2]
              trained_model) as (m' & H1 & H2 & _).
  - vm_compute; reflexivity.
  - exists m'. by split.
Defined.

Lemma full_batch_well_formed : well_formed full_batch.
Proof.
  unfold well_formed, full_batch. cbn [data shape].
  rewrite length_replicate. unfold numel. cbn [fold_right]. lia.
Qed.

Lemma demo_reshape_full_batch_witness :
  flatten full_batch = Ok (demo_reshape zero_init_junk full_batch).
Proof.
  apply (demo_reshape_full_batch zero_init_junk full_batch [1; 28; 28]).
  - reflexivity.
  - exact full_batch_well_formed.
  - reflexivity.
Defined.

Lemma prediction_input_behaviour_witness :
  prediction_input short_batch = Raise (IndexError 63 2).
Proof.
  destruct (prediction_input_behaviour short_batch 2) as [H _].
  - reflexivity.
  - unfold well_formed. vm_compute. reflexivity.
  - apply H. lia.
Defined.


Lemma first_batch_is_full_witness :
  exists batch,
    DataLoader (replicate 70 sample_image) 64 !! 0 = Some batch
    /\ shape batch.1 = [64; 1; 28; 28]
    /\ length batch.2 = 64.
Proof.
  destruct (first_batch_is_full zero_init_junk (replicate 70 sample_image))
    as (batch & H1 & H2 & _ & H3 & _).
  - rewrite length_replicate. lia.
  - apply Forall_replicate. split; [reflexivity|].
    unfold well_formed. vm_compute. reflexivity.
  - exists batch. split; [exact H1|]. split; [exact H2 | exact H3].
Defined.

Lemma prediction_probabilities_witness :
  exists z logps,
    sequential (notebook_model (new_linear real_init "0" 784 128)
                  (new_linear real_init "2" 128 64)
                  (new_linear real_init "4" 64 10))
      [replicate 784 0%R] = Ok [logps]
    /\ probabilities logps = softmax z
    /\ rsum (probabilities logps) = 1%R.
Proof.
  destruct (prediction_probabilities
              (new_linear real_init "0" 784 128)
              (new_linear real_init "2" 128 64)
              (new_linear real_init "4" 64 10)
              (replicate 784 0%R))
    as (z & logps & _ & H1 & H2 & _ & _ & H3).
  - reflexivity.
  - reflexivity.
  - exists z, logps. split; [exact H1|]. split; [exact H2 | exact H3].
Defined.

Lemma model_accepts_flattened_batches_witness :
  exists row,
    row ∈ [replicate 28 0%R]
    /\ sequential (notebook_model (new_linear real_init "0" 784 128)
                     (new_linear real_init "2" 128 64)
                     (new_linear real_init "4" 64 10))
         [replicate 28 0%R]
       = Raise (ShapeError 784 (length row)).
Proof.
  destruct (model_accepts_flattened_batches
              (new_linear real_init "0" 784 128)
              (new_linear real_init "2" 128 64)
              (new_linear real_init "4" 64 10)
              [replicate 28 0%R]) as [_ H].
  - reflexivity.
  - destruct H as (row & H1 & _ & H2).
    + intros HF. apply Forall_cons in HF as [HF _]. discriminate HF.
    + exists row. split; [exact H1 | exact H2].
Defined.

Lemma training_loss_nonnegative_witness :
  exists out loss,
    sequential (notebook_model (new_linear real_init "0" 784 128)
                  (new_linear real_init "2" 128 64)
                  (new_linear real_init "4" 64 10))
      [replicate 784 0%R] = Ok out
    /\ nll_loss out [3] = Ok loss
    /\ (0 <= loss)%R.
Proof.
  apply (training_loss_nonnegative
           (new_linear real_init "0" 784 128)
           (new_linear real_init "2" 128 64)
           (new_linear real_init "4" 64 10)
           [replicate 784 0%R] [3]).
  - reflexivity.
  - discriminate.
  - repeat constructor.
  - reflexivity.
  - repeat constructor.
Defined.

Lemma mean_of_squares_gradient_witness :
  derivable_pt_lim
    (fun t => mean_of_squares (<[0:=t]> [1; 2; 3; 4]%R)) 1
    (2 * 1 / INR (length [1; 2; 3; 4]%R))%R.
Proof.
  destruct (mean_of_squares_gradient [1; 2; 3; 4]%R 0 1%R) as [H _].
  - reflexivity.
  - exact H.
Defined.

Lemma train_epochs_prints_means_witness :
  exists epoch_losses : list (list R),
    length epoch_losses = 2
    /\ printed
         (match train_epochs nat nat toy_forward toy_criterion toy_zero_grad
                  toy_backward toy_optimizer_step 2 0
                  (fun _ => [(toy_images, toy_labels)]) toy_state with
          | Ok st => st
          | Raise _ => toy_state
          end)
       = map mean epoch_losses.
Proof.
  destruct (train_epochs_prints_means nat nat toy_forward toy_criterion
              toy_zero_grad toy_backward toy_optimizer_step 2 0
              (fun _ => [(toy_images, toy_labels)]) toy_state
              (match train_epochs nat nat toy_forward toy_criterion
                       toy_zero_grad toy_backward toy_optimizer_step 2 0
                       (fun _ => [(toy_images, toy_labels)]) toy_state with
               | Ok st => st
               | Raise _ => toy_state
               end))
    as (epoch_losses & H1 & H2 & _).
  - discriminate.
  - reflexivity.
  - exists epoch_losses. split; [exact H1 | exact H2].
Defined.

Lemma full_batch_real_well_formed : well_formed full_batch_real.
Proof.
  unfold well_formed, full_batch_real. cbn [data shape].
  rewrite length_replicate. unfold numel. cbn [fold_right]. lia.
Qed.

Lemma demo_step_agrees_with_loop_witness :
  match train_step nat nat toy_forward toy_criterion toy_zero_grad
          toy_backward toy_optimizer_step toy_state
          (full_batch_real, toy_labels),
        demo_step nat nat toy_forward toy_criterion toy_zero_grad
          toy_backward toy_optimizer_step (fun _ => 0%R) toy_state
          (full_batch_real, toy_labels) with
  | Ok s1, Ok s2 => ts_model s1 = ts_model s2 /\ ts_grads s1 = ts_grads s2
  | Raise e1, Raise e2 => e1 = e2
  | _, _ => False
  end.
Proof.
  apply (demo_step_agrees_with_loop nat nat toy_forward toy_criterion
           toy_zero_grad toy_backward toy_optimizer_step (fun _ => 0%R)
           toy_state (full_batch_real, toy_labels) [1; 28; 28]).
  - reflexivity.
  - exact full_batch_real_well_formed.
  - reflexivity.
Defined.

Lemma load_checkpoint_returns_record_witness :
  state_dict
    (match load_checkpoint zero_init
             (torch_save (checkpoint trained_model) "checkpoint.pth" ∅)
             "checkpoint.pth" with
     | Ok m => m
     | Raise _ => Network zero_init 784 10 []
     end)
  = state_dict trained_model.
Proof.
  apply (load_checkpoint_returns_record zero_init
           (torch_save (checkpoint trained_model) "checkpoint.pth" ∅)
           "checkpoint.pth" (checkpoint trained_model)).
  - vm_compute; reflexivity.
  - vm_compute; reflexivity.
  - vm_compute; reflexivity.
Defined.
